(** * Force relaxation of particles on a 1-D line segment

    Shallow embedding of the simulation core of the scripts
    [physics/particles_1d_line_segment_03_02.py.py] and
    [physics/particles_1d_line_segment_03_02.py] (two variants of the
    three-particle script), [physics/particles_1d_line_segment_04_02.py.py] and
    [physics/particles_1d_line_segment_n_02.py.py] (the [Particle] class and
    the animation callback, identical in both files up to the initial list
    of free particles).

    Numbers.  The scripts compute with binary64 floats (numpy scalars;
    64-bit integers where a script writes its positions as integers).
    The scripts are embedded twice.

    [Module Binary64], [Module Int64] and [Module Engine64] hold them over
    the kernel's binary64 floats, with the rounding, the infinities, the
    not-a-numbers and the two zeros of the arithmetic the scripts run on.
    Whatever the arithmetic decides (the rest at the midpoint, mirror
    images, the run toward the midpoint, the term of a particle with
    itself, the denominators of the divisions, the height of the marker)
    is stated and proved there.

    [Module Script03a], [Module Script03] and [Module Engine] hold them
    over exact canonical rationals [Qc], with [FORCE_DECAY_POWER] a
    natural number.  They carry what does not rest on the laws of exact
    arithmetic: which objects a tick reads and writes and in which
    order, what a run depends on, and the sign conventions of the force
    expression.

    Rendering (matplotlib artists, text labels) is reduced to the values
    the callback hands to it. *)

From Stdlib Require Import String.
From Stdlib Require Import QArith Qcanon Qcabs Qabs ZArith List Lia Lqa Bool.
From Stdlib Require Import Floats.

Local Open Scope Z_scope.
Local Open Scope Qc_scope.

(** ** numpy scalar functions used by the scripts *)

(** [np.sign]: -1, 0 or +1. *)
Definition np_sign (x : Qc) : Qc :=
  match x ?= 0 with
  | Lt => Qcopp 1
  | Eq => 0
  | Gt => 1
  end.

(** [np.abs]. *)
Definition np_abs (x : Qc) : Qc := Qcabs x.

(** The force expression [direction * np.sign(dx)/(np.abs(dx)**FORCE_DECAY)]
    under its guard [if not dx == 0], as written twice in the callback of
    [particles_1d_line_segment_03_02.py] and once in
    [Particle.compute_force]. *)
Definition guarded_force (direction : Qc) (FORCE_DECAY : nat) (dx : Qc) : Qc :=
  if Qc_eq_dec dx 0 then 0   (* In case of singularity, ignore the force. *)
  else direction * np_sign dx / (np_abs dx ^ FORCE_DECAY).

(** Sum of a list of contributions. *)
Definition Qcsum (l : list Qc) : Qc := fold_right Qcplus 0 l.

(** ** particles_1d_line_segment_03_02.py.py : one free particle, sign raised to a power *)

Module Script03a.

Record Settings := {
  PARTICLE_LEFT_POSITION : Qc;
  PARTICLE_RIGHT_POSITION : Qc;
  IS_REPULSIVE : nat;          (* 1: Repulsive force | 0: Attractive force *)
  FORCE_DECAY_POWER : nat;
  FORCE_POSITION_GAIN : Qc
}.

(** The local [force_left_particle] of the callback. *)
Definition force_left_particle (s : Settings) (particle_free_position : Qc) : Qc :=
  let dx := particle_free_position - PARTICLE_LEFT_POSITION s in
  if Qc_eq_dec dx 0 then 0   (* In case of singularity, ignore the force. *)
  else np_sign dx ^ IS_REPULSIVE s / (np_abs dx ^ FORCE_DECAY_POWER s).

(** The local [force_right_particle] of the callback. *)
Definition force_right_particle (s : Settings) (particle_free_position : Qc) : Qc :=
  let dx := particle_free_position - PARTICLE_RIGHT_POSITION s in
  if Qc_eq_dec dx 0 then 0   (* In case of singularity, ignore the force. *)
  else np_sign dx ^ IS_REPULSIVE s / (np_abs dx ^ FORCE_DECAY_POWER s).

(** The callback; the state is the global [particle_free_position]
    ([frame] is not used). *)
Definition update_graphics (s : Settings) (frame : Z)
           (particle_free_position : Qc) : Qc :=
  particle_free_position
  + FORCE_POSITION_GAIN s
    * (force_left_particle s particle_free_position
       + force_right_particle s particle_free_position).

(** The settings written in the file. *)
Definition file_settings : Settings := {|
  PARTICLE_LEFT_POSITION := 0;
  PARTICLE_RIGHT_POSITION := Q2Qc 6;
  IS_REPULSIVE := 1;
  FORCE_DECAY_POWER := 1;
  FORCE_POSITION_GAIN := Q2Qc (1 # 10)
|}.

(** The file's settings with [IS_REPULSIVE = 0], the value its comment
    gives for an attractive force. *)
Definition attractive_settings : Settings := {|
  PARTICLE_LEFT_POSITION := 0;
  PARTICLE_RIGHT_POSITION := Q2Qc 6;
  IS_REPULSIVE := 0;
  FORCE_DECAY_POWER := 1;
  FORCE_POSITION_GAIN := Q2Qc (1 # 10)
|}.

(** [FuncAnimation] calls the callback once per frame. *)
Definition run (s : Settings) (frames : list Z) (particle_free_position : Qc) : Qc :=
  fold_left (fun x frame => update_graphics s frame x) frames particle_free_position.

End Script03a.

(** ** particles_1d_line_segment_03_02.py : one free particle, sign times direction *)

Module Script03.

Record Settings := {
  PARTICLE_LEFT_POSITION : Qc;
  PARTICLE_RIGHT_POSITION : Qc;
  IS_REPULSIVE : bool;
  FORCE_DECAY_POWER : nat;
  FORCE_POSITION_GAIN : Qc
}.

(** [direction = -1; if IS_REPULSIVE: direction = 1]. *)
Definition direction (s : Settings) : Qc :=
  if IS_REPULSIVE s then 1 else Qcopp 1.

(** The local [force_left_particle] of the callback. *)
Definition force_left_particle (s : Settings) (particle_free_position : Qc) : Qc :=
  let dx := particle_free_position - PARTICLE_LEFT_POSITION s in
  guarded_force (direction s) (FORCE_DECAY_POWER s) dx.

(** The local [force_right_particle] of the callback. *)
Definition force_right_particle (s : Settings) (particle_free_position : Qc) : Qc :=
  let dx := particle_free_position - PARTICLE_RIGHT_POSITION s in
  guarded_force (direction s) (FORCE_DECAY_POWER s) dx.

(** The callback: the new [particle_free_position] and the [time_step]
    that is printed ([frame + 3]). *)
Definition update_graphics (s : Settings) (frame : Z)
           (particle_free_position : Qc) : Qc * Z :=
  (particle_free_position
   + FORCE_POSITION_GAIN s
     * (force_left_particle s particle_free_position
        + force_right_particle s particle_free_position),
   (frame + 3)%Z).

(** [FuncAnimation] calls the callback once per frame. *)
Definition run (s : Settings) (frames : list Z) (particle_free_position : Qc) : Qc :=
  fold_left (fun x frame => fst (update_graphics s frame x)) frames particle_free_position.

(** The settings written in the file. *)
Definition file_settings : Settings := {|
  PARTICLE_LEFT_POSITION := 0;
  PARTICLE_RIGHT_POSITION := Q2Qc 6;
  IS_REPULSIVE := true;
  FORCE_DECAY_POWER := 1;
  FORCE_POSITION_GAIN := Q2Qc (1 # 10)
|}.

(** The file's settings with [IS_REPULSIVE = False]. *)
Definition attractive_settings : Settings := {|
  PARTICLE_LEFT_POSITION := 0;
  PARTICLE_RIGHT_POSITION := Q2Qc 6;
  IS_REPULSIVE := false;
  FORCE_DECAY_POWER := 1;
  FORCE_POSITION_GAIN := Q2Qc (1 # 10)
|}.

End Script03.

(** The settings of [particles_1d_line_segment_03_02.py] that correspond
    to settings of [particles_1d_line_segment_03_02.py.py]: the exponent
    1 is the repulsive mode. *)
Definition script03_of_script03a (s : Script03a.Settings) : Script03.Settings := {|
  Script03.PARTICLE_LEFT_POSITION := Script03a.PARTICLE_LEFT_POSITION s;
  Script03.PARTICLE_RIGHT_POSITION := Script03a.PARTICLE_RIGHT_POSITION s;
  Script03.IS_REPULSIVE := Nat.eqb (Script03a.IS_REPULSIVE s) 1;
  Script03.FORCE_DECAY_POWER := Script03a.FORCE_DECAY_POWER s;
  Script03.FORCE_POSITION_GAIN := Script03a.FORCE_POSITION_GAIN s
|}.

(** ** particles_1d_line_segment_04_02.py.py and particles_1d_line_segment_n_02.py.py *)

Module Engine.

Record Settings := {
  IS_REPULSIVE : bool;
  FORCE_DECAY_POWER : nat;
  FORCE_POSITION_GAIN : Qc
}.

(** [direction = -1; if IS_REPULSIVE: direction = 1]. *)
Definition direction (s : Settings) : Qc :=
  if IS_REPULSIVE s then 1 else Qcopp 1.

(** class Particle.  Objects are mutated in place by the callback; a
    particle's identity is its place in the store below, not its
    fields. *)
Record Particle := {
  position : Qc;
  name : string;
  color : string;
  total_force : Qc
}.

(** [Particle.__init__]. *)
Definition Particle_init (position : Qc) (name color : string) : Particle :=
  {| position := position; name := name; color := color; total_force := 0 |}.

Definition set_total_force (self : Particle) (f : Qc) : Particle :=
  {| position := position self; name := name self; color := color self;
     total_force := f |}.

Definition set_position (self : Particle) (x : Qc) : Particle :=
  {| position := x; name := name self; color := color self;
     total_force := total_force self |}.

(** [Particle.compute_force]: [self.total_force += force]. *)
Definition compute_force (self mate_particle : Particle)
           (direction : Qc) (FORCE_DECAY : nat) : Particle :=
  let dx := position self - position mate_particle in
  let force := guarded_force direction FORCE_DECAY dx in
  set_total_force self (total_force self + force).

(** [Particle.move]. *)
Definition move (self : Particle) (gain : Qc) : Particle :=
  set_position self (position self + gain * total_force self).

(** The module-level objects the callback works on: the two boundary
    particles and the list [particles] of free ones.  The three are
    distinct objects in both files, and no boundary particle is put in
    [particles]. *)
Record World := {
  particle_L : Particle;
  particle_R : Particle;
  particles : list Particle
}.

Definition set_particles (w : World) (ps : list Particle) : World :=
  {| particle_L := particle_L w; particle_R := particle_R w; particles := ps |}.

(** In-place update of the object at place [i]. *)
Fixpoint store (i : nat) (p : Particle) (ps : list Particle) : list Particle :=
  match ps, i with
  | nil, _ => nil
  | _ :: rest, O => p :: rest
  | q :: rest, S i' => q :: store i' p rest
  end.

(** [for mate_particle in particles: if not mate_particle == particle: ...]
    for the particle at place [i]; [j] is the place of the head of
    [mates].  [==] on [Particle] objects is identity. *)
Fixpoint for_mates (s : Settings) (i j : nat) (mates : list Particle)
         (particle : Particle) : Particle :=
  match mates with
  | nil => particle
  | mate_particle :: rest =>
      for_mates s i (S j) rest
        (if Nat.eqb j i then particle
         else compute_force particle mate_particle (direction s) (FORCE_DECAY_POWER s))
  end.

(** The body of [for particle in particles], for the particle at place
    [i]; the state is the world and the list [poss] built so far. *)
Definition loop_body (s : Settings) (st : World * list Qc) (i : nat) : World * list Qc :=
  let (w, poss) := st in
  match nth_error (particles w) i with
  | None => st
  | Some particle =>
      let particle := set_total_force particle 0 in
      let particle :=
        compute_force particle (particle_L w) (direction s) (FORCE_DECAY_POWER s) in
      let particle :=
        compute_force particle (particle_R w) (direction s) (FORCE_DECAY_POWER s) in
      let particle := for_mates s i 0 (particles w) particle in
      let particle := move particle (FORCE_POSITION_GAIN s) in
      (set_particles w (store i particle (particles w)),
       poss ++ position particle :: nil)
  end.

(** The simulation part of the callback: the world after the loop and
    [poss]. *)
Definition simulate (s : Settings) (w : World) : World * list Qc :=
  fold_left (loop_body s) (seq 0 (length (particles w))) (w, nil).

(** What the callback hands to the artists. *)
Record Drawn := {
  poss : list Qc;
  time_step : Z
}.

(** The callback, up to the statements that draw: the loop and
    [time_step].  The subscripts [poss[0]], [poss[1]], ... that follow
    the loop fail when the list of free particles is shorter than the
    number of texts; they are embedded in [Engine64.draw]. *)
Definition update_graphics (s : Settings) (frame : Z) (w : World) : World * Drawn :=
  let time_step := (frame + 3)%Z in
  let (w', poss) := simulate s w in
  (w', {| poss := poss; time_step := time_step |}).

(** One tick: the world after one call of the callback. *)
Definition tick (s : Settings) (w : World) : World :=
  fst (simulate s w).

(** [FuncAnimation] calls the callback once per frame. *)
Definition run (s : Settings) (frames : list Z) (w : World) : World :=
  fold_left (fun w frame => fst (update_graphics s frame w)) frames w.

(** [n] ticks. *)
Definition ticks (s : Settings) (n : nat) (w : World) : World :=
  Nat.iter n (tick s) w.

Definition positions (w : World) : list Qc := map position (particles w).

(** *** The objects created by the two files *)

Definition file_settings : Settings := {|
  IS_REPULSIVE := true;
  FORCE_DECAY_POWER := 1;
  FORCE_POSITION_GAIN := Q2Qc (3 # 100)
|}.

Definition file_particle_L : Particle := Particle_init 0 "L"%string "k"%string.
Definition file_particle_R : Particle := Particle_init (Q2Qc 6) "R"%string "k"%string.

(** particles_1d_line_segment_04_02.py.py *)
Definition world_04_02 : World := {|
  particle_L := file_particle_L;
  particle_R := file_particle_R;
  particles := Particle_init 1 "1"%string "ro"%string
               :: Particle_init (Q2Qc 2) "2"%string "go"%string :: nil
|}.

(** particles_1d_line_segment_n_02.py.py *)
Definition world_n_02 : World := {|
  particle_L := file_particle_L;
  particle_R := file_particle_R;
  particles := Particle_init 1 "1"%string "ro"%string
               :: Particle_init (Q2Qc (5 # 4)) "2"%string "go"%string
               :: Particle_init (Q2Qc (3 # 2)) "3"%string "bo"%string
               :: Particle_init (Q2Qc (7 # 4)) "4"%string "co"%string
               :: Particle_init (Q2Qc 2) "5"%string "yo"%string :: nil
|}.

(** Two free particles placed symmetrically around the midpoint 3 of the
    segment of the files, at 2 and 4. *)
Definition world_symmetric_pair : World := {|
  particle_L := file_particle_L;
  particle_R := file_particle_R;
  particles := Particle_init (Q2Qc 2) "1"%string "ro"%string
               :: Particle_init (Q2Qc 4) "2"%string "go"%string :: nil
|}.

(** *** The force law on positions *)

(** The contribution that [compute_force] adds to the particle at
    position [a] for a mate at position [b]. *)
Definition contribution (s : Settings) (a b : Qc) : Qc :=
  guarded_force (direction s) (FORCE_DECAY_POWER s) (a - b).

(** The positions of the boundary particles. *)
Definition position_L (w : World) : Qc := position (particle_L w).
Definition position_R (w : World) : Qc := position (particle_R w).

(** The net force on a particle at [x] from boundary particles at [l]
    and [r] and from mates at the positions [others]. *)
Definition net_force (s : Settings) (l r x : Qc) (others : list Qc) : Qc :=
  contribution s x l + contribution s x r
  + Qcsum (map (contribution s x) others).



(** *** The loop as a recursion on the list *)

(** The inner loop over a list [mates] that does not hold the particle
    itself. *)
Definition accumulate (s : Settings) (mates : list Particle) (particle : Particle)
  : Particle :=
  fold_left
    (fun particle mate_particle =>
       compute_force particle mate_particle (direction s) (FORCE_DECAY_POWER s))
    mates particle.

(** One turn of the outer loop for [particle], the other free particles
    being [mates]. *)
Definition advance (s : Settings) (L R : Particle) (mates : list Particle)
           (particle : Particle) : Particle :=
  let particle := set_total_force particle 0 in
  let particle := compute_force particle L (direction s) (FORCE_DECAY_POWER s) in
  let particle := compute_force particle R (direction s) (FORCE_DECAY_POWER s) in
  let particle := accumulate s mates particle in
  move particle (FORCE_POSITION_GAIN s).

(** The particles of [todo] after their turns, [done] being the
    particles in front of them, which have had their turn. *)
Fixpoint sweep (s : Settings) (L R : Particle) (done todo : list Particle)
  : list Particle :=
  match todo with
  | nil => nil
  | particle :: rest =>
      let particle' := advance s L R (done ++ rest) particle in
      particle' :: sweep s L R (done ++ particle' :: nil) rest
  end.

(** The same recursion on positions alone. *)
Definition advance_position (s : Settings) (l r : Qc) (others : list Qc) (x : Qc) : Qc :=
  x + FORCE_POSITION_GAIN s * net_force s l r x others.

Fixpoint relax (s : Settings) (l r : Qc) (done todo : list Qc) : list Qc :=
  match todo with
  | nil => nil
  | x :: rest =>
      let x' := advance_position s l r (done ++ rest) x in
      x' :: relax s l r (done ++ x' :: nil) rest
  end.

(** *** Reflection about the midpoint of the segment *)

(** The mirror image of [x] about the midpoint of the two boundary
    particles. *)
Definition mirror (w : World) (x : Qc) : Qc := position_L w + position_R w - x.

(** The free particles are placed symmetrically around the midpoint:
    the particle at place [i] from the left is the mirror image of the
    particle at place [i] from the right. *)
Definition symmetric (w : World) : Prop :=
  rev (positions w) = map (mirror w) (positions w).

(** *** The other mode *)

(** The other mode, with the opposite gain. *)
Definition opposite_mode (s : Settings) : Settings := {|
  IS_REPULSIVE := negb (IS_REPULSIVE s);
  FORCE_DECAY_POWER := FORCE_DECAY_POWER s;
  FORCE_POSITION_GAIN := - FORCE_POSITION_GAIN s
|}.

End Engine.

(** ** The three-particle script over binary64 floats

    The expressions of [particles_1d_line_segment_03_02.py] on the
    kernel's binary64 floats, the number type the scripts compute with,
    for the one setting of [FORCE_DECAY_POWER] found in the files, 1 (so
    that [np.abs(dx)**FORCE_DECAY] is [np.abs(dx)]).  numpy's scalar
    division does not raise: on overflow or on a zero denominator it
    warns and returns an infinity or a not-a-number. *)

Module Binary64.

Local Open Scope float_scope.

(** [np.sign] on a float: -1.0, 0.0, +1.0, and not-a-number on a
    not-a-number. *)
Definition np_sign (x : float) : float :=
  if x <? 0 then -1
  else if 0 <? x then 1
  else if x =? 0 then 0
  else x.

(** [np.abs] on a float. *)
Definition np_abs (x : float) : float := abs x.

(** [if not dx == 0: force = direction * np.sign(dx)/(np.abs(dx)**1)
    else: force = 0]. *)
Definition guarded_force (direction dx : float) : float :=
  if dx =? 0 then 0
  else direction * np_sign dx / np_abs dx.

Record Particle := {
  position : float;
  total_force : float
}.

(** [Particle.compute_force] with [FORCE_DECAY = 1]. *)
Definition compute_force (self mate_particle : Particle) (direction : float) : Particle :=
  let dx := position self - position mate_particle in
  let force := guarded_force direction dx in
  {| position := position self; total_force := total_force self + force |}.

(** [Particle.move]. *)
Definition move (self : Particle) (gain : float) : Particle :=
  {| position := position self + gain * total_force self;
     total_force := total_force self |}.

(** The body of the callback for a single free particle between the
    two boundary particles: reset, the two boundary contributions,
    move. *)
Definition tick_single (particle_L particle_R particle : Particle)
           (direction gain : float) : Particle :=
  let particle := {| position := position particle; total_force := 0 |} in
  let particle := compute_force particle particle_L direction in
  let particle := compute_force particle particle_R direction in
  move particle gain.

(** The callback of [particles_1d_line_segment_03_02.py] with
    [FORCE_DECAY_POWER = 1]: the new [particle_free_position]. *)
Definition update_graphics_03_02
           (PARTICLE_LEFT_POSITION PARTICLE_RIGHT_POSITION direction
            FORCE_POSITION_GAIN particle_free_position : float) : float :=
  let dx := particle_free_position - PARTICLE_LEFT_POSITION in
  let force_left_particle := guarded_force direction dx in
  let dx := particle_free_position - PARTICLE_RIGHT_POSITION in
  let force_right_particle := guarded_force direction dx in
  particle_free_position
  + FORCE_POSITION_GAIN * (force_left_particle + force_right_particle).

(** The smallest positive binary64 number, 2^-1074 (printed 5e-324). *)
Definition smallest_positive : float := 0x1p-1074.

(** The binary64 number nearest to 0.1, the value of the literal [0.1]. *)
Definition one_tenth : float := 0x1.999999999999ap-4.

(** One frame of [particles_1d_line_segment_03_02.py] with the settings
    of the file: boundaries at 0 and 6, repulsive, gain 0.1. *)
Definition frame_03_02 (particle_free_position : float) : float :=
  update_graphics_03_02 0 6 1 one_tenth particle_free_position.

(** Python's [a == b] on floats, extended to the not-a-numbers: the two
    values are the same number ([0.0] and [-0.0] are), or neither is a
    number. *)
Definition same_number (a b : float) : bool :=
  (a =? b) || (is_nan a && is_nan b).

Fixpoint same_numbers (l1 l2 : list float) : bool :=
  match l1, l2 with
  | nil, nil => true
  | a :: l1', b :: l2' => same_number a b && same_numbers l1' l2'
  | _, _ => false
  end.

(** The position after [n] calls of the callback of
    [particles_1d_line_segment_03_02.py], from the initial
    [particle_free_position = 1] of the file. *)
Definition trajectory (n : nat) : float := Nat.iter n frame_03_02 1.

(** The position at which the run of the file comes to rest,
    2.9999999999999902, and the number of calls after which it does. *)
Definition stall_position : float := 0x1.7ffffffffffeap+1.
Definition stall_frame : nat := 1450.

(** The binary64 number nearest to 1e-6. *)
Definition tolerance : float := 0x1.0c6f7a0b5ed8dp-20.

(** What is checked at the call number [n] of the callback, [x] being
    the position before it. *)
Definition frame_check (n : nat) (x : float) : bool :=
  let x' := frame_03_02 x in
  let x'' := frame_03_02 x' in
  (x <=? x')
  && (x' <? 3)
  && (x'' - x' <=? x' - x)
  && implb (n <? 1450)%nat (x <? x')
  && implb (n <? 1263)%nat (x'' - x' <? x' - x)
  && implb (636 <=? n)%nat (abs (x - 3) <? tolerance).

(** [frame_check] at the calls [n], [n+1], ..., [count] of them, from
    the position [x]. *)
Fixpoint frames_check (count n : nat) (x : float) : bool :=
  match count with
  | O => true
  | S count' => frame_check n x && frames_check count' (S n) (frame_03_02 x)
  end.

(** The position [x] and the [count - 1] positions that the callback
    computes after it are not within the tolerance of 3.0. *)
Fixpoint outside_tolerance (count : nat) (x : float) : bool :=
  match count with
  | O => true
  | S count' => negb (abs (x - 3) <? tolerance) && outside_tolerance count' (frame_03_02 x)
  end.

(** A division that reports a zero denominator, where numpy warns
    ("divide by zero encountered") and returns an infinity or a
    not-a-number. *)
Definition checked_div (x y : float) : option float :=
  if y =? 0 then None else Some (x / y).

End Binary64.

(** ** Integer positions

    [particles_1d_line_segment_03_02.py] writes its positions as the
    integers 0, 6 and 1.  At the first call of the callback [dx] is a
    Python integer, [np.sign(dx)] and [np.abs(dx)] are 64-bit integers, so
    is the power [np.abs(dx)**FORCE_DECAY_POWER], computed in two's
    complement, and the division converts both sides to binary64.  With
    [FORCE_DECAY_POWER = 1] and the numbers of the file every one of
    these integers is the binary64 number of the same value, and the
    first call computes what [Binary64.update_graphics_03_02] computes on
    1.0, 0.0 and 6.0; from the second call on the position is a float.
    The integers are taken to fit in 64 bits. *)

Module Int64.

Local Open Scope Z_scope.

(** The 64-bit two's complement integer congruent to [z]. *)
Definition wrap (z : Z) : Z := (z + 2 ^ 63) mod 2 ^ 64 - 2 ^ 63.

(** [np.abs] on a 64-bit integer. *)
Definition np_abs (z : Z) : Z := wrap (Z.abs z).

(** [base ** exponent] on a 64-bit integer and a natural exponent. *)
Definition power (base : Z) (exponent : nat) : Z := wrap (base ^ Z.of_nat exponent).

(** [np.abs(dx)**FORCE_DECAY_POWER] for an integer [dx]. *)
Definition denominator (dx : Z) (FORCE_DECAY_POWER : nat) : Z :=
  power (np_abs dx) FORCE_DECAY_POWER.

(** [np.sign] on a 64-bit integer. *)
Definition np_sign (z : Z) : Z := Z.sgn z.

(** The binary64 number nearest to an integer: what the true division
    [/] and the sum with a float make of a 64-bit integer. *)
Definition to_float (z : Z) : float := SF2Prim (binary_normalize prec emax z 0 false).

(** [if not dx == 0: force = direction * np.sign(dx)/(np.abs(dx)**FORCE_DECAY_POWER)
    else: force = 0] for an integer [dx]. *)
Definition guarded_force (direction : Z) (FORCE_DECAY_POWER : nat) (dx : Z) : float :=
  if (dx =? 0)%Z then 0%float
  else (to_float (wrap (direction * np_sign dx))
        / to_float (denominator dx FORCE_DECAY_POWER))%float.

(** The callback of [particles_1d_line_segment_03_02.py] at its first
    call, on integer positions: the new [particle_free_position], a
    float. *)
Definition update_graphics_03_02
           (PARTICLE_LEFT_POSITION PARTICLE_RIGHT_POSITION direction : Z)
           (FORCE_DECAY_POWER : nat) (FORCE_POSITION_GAIN : float)
           (particle_free_position : Z) : float :=
  let dx := particle_free_position - PARTICLE_LEFT_POSITION in
  let force_left_particle := guarded_force direction FORCE_DECAY_POWER dx in
  let dx := particle_free_position - PARTICLE_RIGHT_POSITION in
  let force_right_particle := guarded_force direction FORCE_DECAY_POWER dx in
  (to_float particle_free_position
   + FORCE_POSITION_GAIN * (force_left_particle + force_right_particle))%float.

End Int64.

(** ** The class-based scripts over binary64 floats

    [Particle], the loop of the callback and the variants of the loop
    that it is compared with, on the number type of the scripts.  The
    free particles are created from float literals; the boundary
    particles from the integers 0 and 6, which enter every computation
    through [self.position - mate_particle.position], a float.

    [np.abs(dx)**FORCE_DECAY] is computed by the power function of the
    C library, which is no part of the scripts: the setting
    [FORCE_DECAY_POWER] is held as the map from the base [np.abs(dx)] to
    the power [np.abs(dx)**FORCE_DECAY_POWER] that it stands for,
    whatever the exponent (an integer, a fraction, a negative number).
    For [FORCE_DECAY_POWER = 1], the value in all four files, the map is
    the identity. *)

Module Engine64.

Local Open Scope float_scope.

Record Settings := {
  IS_REPULSIVE : bool;
  FORCE_DECAY_POWER : float -> float;
  FORCE_POSITION_GAIN : float
}.

(** [direction = -1; if IS_REPULSIVE: direction = 1]. *)
Definition direction (s : Settings) : float :=
  if IS_REPULSIVE s then 1 else -1.

(** class Particle. *)
Record Particle := {
  position : float;
  name : string;
  color : string;
  total_force : float
}.

(** [Particle.__init__]. *)
Definition Particle_init (position : float) (name color : string) : Particle :=
  {| position := position; name := name; color := color; total_force := 0 |}.

Definition set_total_force (self : Particle) (f : float) : Particle :=
  {| position := position self; name := name self; color := color self;
     total_force := f |}.

Definition set_position (self : Particle) (x : float) : Particle :=
  {| position := x; name := name self; color := color self;
     total_force := total_force self |}.

(** [if not dx == 0: force = direction * np.sign(dx)/(np.abs(dx)**FORCE_DECAY)
    else: force = 0]. *)
Definition guarded_force (direction : float) (FORCE_DECAY : float -> float) (dx : float)
  : float :=
  if dx =? 0 then 0   (* In case of singularity, ignore the force. *)
  else direction * Binary64.np_sign dx / FORCE_DECAY (Binary64.np_abs dx).

(** [Particle.compute_force]: [self.total_force += force]. *)
Definition compute_force (self mate_particle : Particle)
           (direction : float) (FORCE_DECAY : float -> float) : Particle :=
  let dx := position self - position mate_particle in
  let force := guarded_force direction FORCE_DECAY dx in
  set_total_force self (total_force self + force).

(** [Particle.move]. *)
Definition move (self : Particle) (gain : float) : Particle :=
  set_position self (position self + gain * total_force self).

(** The module-level objects the callback works on. *)
Record World := {
  particle_L : Particle;
  particle_R : Particle;
  particles : list Particle
}.

Definition set_particles (w : World) (ps : list Particle) : World :=
  {| particle_L := particle_L w; particle_R := particle_R w; particles := ps |}.

(** In-place update of the object at place [i]. *)
Fixpoint store (i : nat) (p : Particle) (ps : list Particle) : list Particle :=
  match ps, i with
  | nil, _ => nil
  | _ :: rest, O => p :: rest
  | q :: rest, S i' => q :: store i' p rest
  end.

(** [for mate_particle in particles: if not mate_particle == particle: ...]
    for the particle at place [i]; [j] is the place of the head of
    [mates]. *)
Fixpoint for_mates (s : Settings) (i j : nat) (mates : list Particle)
         (particle : Particle) : Particle :=
  match mates with
  | nil => particle
  | mate_particle :: rest =>
      for_mates s i (S j) rest
        (if Nat.eqb j i then particle
         else compute_force particle mate_particle
                (direction s) (FORCE_DECAY_POWER s))
  end.

(** The body of [for particle in particles], for the particle at place
    [i]; the state is the world and the list [poss] built so far. *)
Definition loop_body (s : Settings) (st : World * list float) (i : nat)
  : World * list float :=
  let (w, poss) := st in
  match nth_error (particles w) i with
  | None => st
  | Some particle =>
      let particle := set_total_force particle 0 in
      let particle :=
        compute_force particle (particle_L w) (direction s) (FORCE_DECAY_POWER s) in
      let particle :=
        compute_force particle (particle_R w) (direction s) (FORCE_DECAY_POWER s) in
      let particle := for_mates s i 0 (particles w) particle in
      let particle := move particle (FORCE_POSITION_GAIN s) in
      (set_particles w (store i particle (particles w)),
       poss ++ position particle :: nil)
  end.

(** The loop of the callback: the world after it and [poss]. *)
Definition simulate (s : Settings) (w : World) : World * list float :=
  fold_left (loop_body s) (seq 0 (List.length (particles w))) (w, nil).

(** One tick: the world after one execution of the loop. *)
Definition tick (s : Settings) (w : World) : World :=
  fst (simulate s w).

(** [n] ticks. *)
Definition ticks (s : Settings) (n : nat) (w : World) : World :=
  Nat.iter n (tick s) w.

Definition positions (w : World) : list float := map position (particles w).

Definition position_L (w : World) : float := position (particle_L w).
Definition position_R (w : World) : float := position (particle_R w).

(** *** The loop as a recursion on the list *)

Definition accumulate (s : Settings) (mates : list Particle) (particle : Particle)
  : Particle :=
  fold_left
    (fun particle mate_particle =>
       compute_force particle mate_particle
         (direction s) (FORCE_DECAY_POWER s))
    mates particle.

(** One turn of the outer loop for [particle], the other free particles
    being [mates]. *)
Definition advance (s : Settings) (L R : Particle) (mates : list Particle)
           (particle : Particle) : Particle :=
  let particle := set_total_force particle 0 in
  let particle :=
    compute_force particle L (direction s) (FORCE_DECAY_POWER s) in
  let particle :=
    compute_force particle R (direction s) (FORCE_DECAY_POWER s) in
  let particle := accumulate s mates particle in
  move particle (FORCE_POSITION_GAIN s).

(** The particles of [todo] after their turns, [done] being the
    particles in front of them, which have had their turn. *)
Fixpoint sweep (s : Settings) (L R : Particle) (done todo : list Particle)
  : list Particle :=
  match todo with
  | nil => nil
  | particle :: rest =>
      let particle' := advance s L R (done ++ rest) particle in
      particle' :: sweep s L R (done ++ particle' :: nil) rest
  end.

(** *** Variant that does not exclude the particle itself *)

(** [for mate_particle in particles: particle.compute_force(...)],
    without the test [if not mate_particle == particle]; [mates] is the
    list as the loop reads it, in which the place of the particle holds
    the particle itself. *)
Fixpoint for_mates_with_self (s : Settings) (mates : list Particle)
         (particle : Particle) : Particle :=
  match mates with
  | nil => particle
  | mate_particle :: rest =>
      for_mates_with_self s rest
        (compute_force particle mate_particle
           (direction s) (FORCE_DECAY_POWER s))
  end.

Definition loop_body_with_self (s : Settings) (st : World * list float) (i : nat)
  : World * list float :=
  let (w, poss) := st in
  match nth_error (particles w) i with
  | None => st
  | Some particle =>
      let particle := set_total_force particle 0 in
      let particle :=
        compute_force particle (particle_L w) (direction s) (FORCE_DECAY_POWER s) in
      let particle :=
        compute_force particle (particle_R w) (direction s) (FORCE_DECAY_POWER s) in
      (* the object at place [i] is the particle being updated: the
         inner loop reads its position there *)
      let particle :=
        for_mates_with_self s (store i particle (particles w)) particle in
      let particle := move particle (FORCE_POSITION_GAIN s) in
      (set_particles w (store i particle (particles w)),
       poss ++ position particle :: nil)
  end.

Definition simulate_with_self (s : Settings) (w : World) : World * list float :=
  fold_left (loop_body_with_self s) (seq 0 (List.length (particles w))) (w, nil).

Definition tick_with_self (s : Settings) (w : World) : World :=
  fst (simulate_with_self s w).

(** One turn of the variant for [particle], with [front] before it in
    the list and [back] behind it: the inner loop runs over the whole
    list, in which the place of the particle holds the particle itself. *)
Definition advance_with_self (s : Settings) (L R : Particle)
           (front back : list Particle) (particle : Particle) : Particle :=
  let particle := set_total_force particle 0 in
  let particle :=
    compute_force particle L (direction s) (FORCE_DECAY_POWER s) in
  let particle :=
    compute_force particle R (direction s) (FORCE_DECAY_POWER s) in
  let particle := accumulate s (front ++ particle :: back) particle in
  move particle (FORCE_POSITION_GAIN s).

Fixpoint sweep_with_self (s : Settings) (L R : Particle) (done todo : list Particle)
  : list Particle :=
  match todo with
  | nil => nil
  | particle :: rest =>
      let particle' := advance_with_self s L R done rest particle in
      particle' :: sweep_with_self s L R (done ++ particle' :: nil) rest
  end.

(** *** The loop with every division checked *)

Definition guarded_force_checked (direction : float) (FORCE_DECAY : float -> float)
           (dx : float) : option float :=
  if dx =? 0 then Some 0
  else Binary64.checked_div (direction * Binary64.np_sign dx)
                            (FORCE_DECAY (Binary64.np_abs dx)).

Definition compute_force_checked (self mate_particle : Particle)
           (direction : float) (FORCE_DECAY : float -> float) : option Particle :=
  let dx := position self - position mate_particle in
  match guarded_force_checked direction FORCE_DECAY dx with
  | None => None
  | Some force => Some (set_total_force self (total_force self + force))
  end.

Fixpoint for_mates_checked (s : Settings) (i j : nat) (mates : list Particle)
         (particle : Particle) : option Particle :=
  match mates with
  | nil => Some particle
  | mate_particle :: rest =>
      if Nat.eqb j i then for_mates_checked s i (S j) rest particle
      else
        match compute_force_checked particle mate_particle
                (direction s) (FORCE_DECAY_POWER s) with
        | None => None
        | Some particle => for_mates_checked s i (S j) rest particle
        end
  end.

Definition loop_body_checked (s : Settings) (st : option (World * list float)) (i : nat)
  : option (World * list float) :=
  match st with
  | None => None
  | Some (w, poss) =>
      match nth_error (particles w) i with
      | None => Some (w, poss)
      | Some particle =>
          let particle := set_total_force particle 0 in
          match compute_force_checked particle (particle_L w)
                  (direction s) (FORCE_DECAY_POWER s) with
          | None => None
          | Some particle =>
              match compute_force_checked particle (particle_R w)
                      (direction s) (FORCE_DECAY_POWER s) with
              | None => None
              | Some particle =>
                  match for_mates_checked s i 0 (particles w) particle with
                  | None => None
                  | Some particle =>
                      let particle := move particle (FORCE_POSITION_GAIN s) in
                      Some (set_particles w (store i particle (particles w)),
                            poss ++ position particle :: nil)
                  end
              end
          end
      end
  end.

Definition simulate_checked (s : Settings) (w : World) : option (World * list float) :=
  fold_left (loop_body_checked s) (seq 0 (List.length (particles w))) (Some (w, nil)).

(** *** What the callback draws *)

Definition PLOT_HEIGHT : float := 2.

(** A text artist: where [set_x] puts it and the number that [set_text]
    renders with ['{:.2f}']. *)
Record Label := {
  label_x : float;
  label_number : float
}.

(** The artists the callback updates and returns: the x and y data of
    [particles_marker], the number in [text_time_step], and the texts
    [particlet_1_text], [particlet_2_text], ... in this order. *)
Record Artists := {
  particles_marker : list float * list float;
  text_time_step : Z;
  particlet_texts : list Label
}.

(** [poss[k]], [poss[k+1]], ..., [n_texts] subscripts in all; [None] is
    the IndexError of a subscript past the end of the list. *)
Fixpoint subscripts (poss : list float) (k n_texts : nat) : option (list float) :=
  match n_texts with
  | O => Some nil
  | S n' =>
      match nth_error poss k with
      | None => None
      | Some x =>
          match subscripts poss (S k) n' with
          | None => None
          | Some xs => Some (x :: xs)
          end
      end
  end.

(** The statements of the callback after the loop, for a script with
    [n_texts] particle texts. *)
Definition draw (n_texts : nat) (time_step : Z) (poss : list float) : option Artists :=
  let np_particles := poss in
  let marker := (np_particles, map (fun x => x * 0 + PLOT_HEIGHT / 2) np_particles) in
  match subscripts poss 0 n_texts with
  | None => None
  | Some xs =>
      Some {| particles_marker := marker;
              text_time_step := time_step;
              particlet_texts := map (fun x => {| label_x := x; label_number := x |}) xs |}
  end.

(** The whole callback: the world after the loop, which is kept also
    when a subscript fails, and the artists it returns. *)
Definition update_graphics_drawn (n_texts : nat) (s : Settings) (frame : Z) (w : World)
  : World * option Artists :=
  let time_step := (frame + 3)%Z in
  let (w', poss) := simulate s w in
  (w', draw n_texts time_step poss).

(** particles_1d_line_segment_n_02.py.py: five particle texts. *)
Definition update_graphics_n_02 : Settings -> Z -> World -> World * option Artists :=
  update_graphics_drawn 5.

(** particles_1d_line_segment_04_02.py.py: two particle texts. *)
Definition update_graphics_04_02 : Settings -> Z -> World -> World * option Artists :=
  update_graphics_drawn 2.

(** *** The objects created by the two files *)

(** The binary64 number nearest to 0.03, the value of the literal
    [0.03]. *)
Definition three_hundredths : float := 0x1.eb851eb851eb8p-6.

Definition file_settings : Settings := {|
  IS_REPULSIVE := true;
  FORCE_DECAY_POWER := fun x => x;   (* x ** 1 *)
  FORCE_POSITION_GAIN := three_hundredths
|}.

Definition file_particle_L : Particle := Particle_init 0 "L"%string "k"%string.
Definition file_particle_R : Particle := Particle_init 6 "R"%string "k"%string.

(** particles_1d_line_segment_04_02.py.py *)
Definition world_04_02 : World := {|
  particle_L := file_particle_L;
  particle_R := file_particle_R;
  particles := Particle_init 1 "1"%string "ro"%string
               :: Particle_init 2 "2"%string "go"%string :: nil
|}.

(** particles_1d_line_segment_n_02.py.py *)
Definition world_n_02 : World := {|
  particle_L := file_particle_L;
  particle_R := file_particle_R;
  particles := Particle_init 1 "1"%string "ro"%string
               :: Particle_init 1.25 "2"%string "go"%string
               :: Particle_init 1.5 "3"%string "bo"%string
               :: Particle_init 1.75 "4"%string "co"%string
               :: Particle_init 2 "5"%string "yo"%string :: nil
|}.

(** *** Reflection *)

(** The mirror image of [x] about the midpoint of the two boundary
    particles. *)
Definition mirror (w : World) (x : float) : float := position_L w + position_R w - x.

(** Every free particle is moved to its mirror image and keeps its
    place in the list; the boundary particles stay. *)
Definition reflect (w : World) : World :=
  set_particles w
    (map (fun p => set_position p (mirror w (position p))) (particles w)).

(** Every particle, boundary or free, is moved to the opposite
    position: the reflection of the whole configuration through the
    origin. *)
Definition negate (w : World) : World := {|
  particle_L := set_position (particle_L w) (- position (particle_L w));
  particle_R := set_position (particle_R w) (- position (particle_R w));
  particles := map (fun p => set_position p (- position p)) (particles w)
|}.

(** A segment with its midpoint at 0.0 and five free particles. *)
Definition world_centred : World := {|
  particle_L := Particle_init (-3) "L"%string "k"%string;
  particle_R := Particle_init 3 "R"%string "k"%string;
  particles := Particle_init (-2) "1"%string "ro"%string
               :: Particle_init (-1.75) "2"%string "go"%string
               :: Particle_init (-1.5) "3"%string "bo"%string
               :: Particle_init (-1.25) "4"%string "co"%string
               :: Particle_init (-1) "5"%string "yo"%string :: nil
|}.

(** The free particles are placed symmetrically around the midpoint:
    the particle at place [i] from the left is at the mirror image of
    the particle at place [i] from the right. *)
Definition symmetric (w : World) : bool :=
  Binary64.same_numbers (rev (positions w)) (map (mirror w) (positions w)).

(** Two free particles placed symmetrically around the midpoint 3.0 of
    the segment of the files, at 2.0 and 4.0. *)
Definition world_symmetric_pair : World := {|
  particle_L := file_particle_L;
  particle_R := file_particle_R;
  particles := Particle_init 2 "1"%string "ro"%string
               :: Particle_init 4 "2"%string "go"%string :: nil
|}.

(** The numbers of a list are in strictly increasing order. *)
Fixpoint increasing (l : list float) : bool :=
  match l with
  | a :: (b :: _) as rest => (a <? b) && increasing rest
  | _ => true
  end.

(** Every free particle is at a finite position, and the left boundary,
    the free particles in the order of the list and the right boundary
    are at strictly increasing positions. *)
Definition in_order (w : World) : bool :=
  forallb is_finite (positions w)
  && increasing (position_L w :: positions w ++ position_R w :: nil).

(** [in_order] holds at the world [w] and after each of the next
    [count] ticks. *)
Fixpoint in_order_during (s : Settings) (count : nat) (w : World) : bool :=
  match count with
  | O => in_order w
  | S count' => in_order w && in_order_during s count' (tick s w)
  end.

End Engine64.

(** ** particles_1d_line_segment_03_02.py over binary64 floats, for any decay power

    The callback of [particles_1d_line_segment_03_02.py] with its
    settings, as in [Module Script03], on binary64 numbers.  The force
    expression is the one of [Particle.compute_force], and the setting
    [FORCE_DECAY_POWER] is held as the map from [np.abs(dx)] to
    [np.abs(dx)**FORCE_DECAY_POWER], as in [Module Engine64]. *)

Module Script64.

Local Open Scope float_scope.

Record Settings := {
  PARTICLE_LEFT_POSITION : float;
  PARTICLE_RIGHT_POSITION : float;
  IS_REPULSIVE : bool;
  FORCE_DECAY_POWER : float -> float;
  FORCE_POSITION_GAIN : float
}.

(** [direction = -1; if IS_REPULSIVE: direction = 1]. *)
Definition direction (s : Settings) : float :=
  if IS_REPULSIVE s then 1 else -1.

(** The local [force_left_particle] of the callback. *)
Definition force_left_particle (s : Settings) (particle_free_position : float) : float :=
  let dx := particle_free_position - PARTICLE_LEFT_POSITION s in
  Engine64.guarded_force (direction s) (FORCE_DECAY_POWER s) dx.

(** The local [force_right_particle] of the callback. *)
Definition force_right_particle (s : Settings) (particle_free_position : float) : float :=
  let dx := particle_free_position - PARTICLE_RIGHT_POSITION s in
  Engine64.guarded_force (direction s) (FORCE_DECAY_POWER s) dx.

(** The callback: the new [particle_free_position] and the [time_step]
    that is printed ([frame + 3]). *)
Definition update_graphics (s : Settings) (frame : Z)
           (particle_free_position : float) : float * Z :=
  (particle_free_position
   + FORCE_POSITION_GAIN s
     * (force_left_particle s particle_free_position
        + force_right_particle s particle_free_position),
   (frame + 3)%Z).

(** [FuncAnimation] calls the callback once per frame. *)
Definition run (s : Settings) (frames : list Z) (particle_free_position : float) : float :=
  fold_left (fun x frame => fst (update_graphics s frame x)) frames particle_free_position.

(** The callback with both divisions checked. *)
Definition update_graphics_checked (s : Settings) (frame : Z)
           (particle_free_position : float) : option (float * Z) :=
  let dx := particle_free_position - PARTICLE_LEFT_POSITION s in
  match Engine64.guarded_force_checked (direction s) (FORCE_DECAY_POWER s) dx with
  | None => None
  | Some force_left_particle =>
      let dx := particle_free_position - PARTICLE_RIGHT_POSITION s in
      match Engine64.guarded_force_checked (direction s) (FORCE_DECAY_POWER s) dx with
      | None => None
      | Some force_right_particle =>
          Some (particle_free_position
                + FORCE_POSITION_GAIN s * (force_left_particle + force_right_particle),
                (frame + 3)%Z)
      end
  end.

(** The settings written in the file. *)
Definition file_settings : Settings := {|
  PARTICLE_LEFT_POSITION := 0;
  PARTICLE_RIGHT_POSITION := 6;
  IS_REPULSIVE := true;
  FORCE_DECAY_POWER := fun x => x;   (* x ** 1 *)
  FORCE_POSITION_GAIN := Binary64.one_tenth
|}.

End Script64.

(** ** Binary64 values as numbers *)

(** Two binary64 values that are the same number: identical, or zeros
    of either sign. *)
Definition SFsame (a b : spec_float) : Prop :=
  match a, b with
  | S754_zero _, S754_zero _ => True
  | _, _ => a = b
  end.

(** The same number: the same binary64 value up to the sign of zero; two
    not-a-numbers count as the same. *)
Definition Same (a b : float) : Prop := SFsame (Prim2SF a) (Prim2SF b).

(** [b] is the opposite of [a], as a number. *)
Definition Opposite (a b : float) : Prop := Same b (- a)%float.

(** Every binary64 value but the negative zero. *)
Definition not_negative_zero (x : float) : Prop := Prim2SF x <> S754_zero true.

(** Two particles at positions related by [Rel]. *)
Definition related_position (Rel : float -> float -> Prop) (p q : Engine64.Particle)
  : Prop :=
  Rel (Engine64.position p) (Engine64.position q).

(** Two particles with positions and forces related by [Rel]. *)
Definition related (Rel : float -> float -> Prop) (p q : Engine64.Particle) : Prop :=
  Rel (Engine64.position p) (Engine64.position q)
  /\ Rel (Engine64.total_force p) (Engine64.total_force q).

(** * Facts about the embedding *)

(** ** Order and sign on canonical rationals *)


Lemma Qc_eq_this (x y : Qc) : (this x == this y)%Q -> x = y.
Proof. intro H. apply Qc_is_canon. exact H. Qed.

Lemma Qc_list_eq (l1 l2 : list Qc) : map this l1 = map this l2 -> l1 = l2.
Proof.
  revert l2. induction l1 as [| x l1 IH]; intros [| y l2] H; try discriminate H.
  - reflexivity.
  - simpl in H. injection H as Hx Hl. f_equal; [apply Qc_decomp, Hx | apply IH, Hl].
Qed.



Lemma np_sign_pos (x : Qc) : 0 < x -> np_sign x = 1.
Proof.
  intro H. unfold np_sign.
  assert (E : (x ?= 0) = Gt) by (apply Qcgt_alt; exact H).
  rewrite E. reflexivity.
Qed.

Lemma np_sign_neg (x : Qc) : x < 0 -> np_sign x = Qcopp 1.
Proof.
  intro H. unfold np_sign.
  assert (E : (x ?= 0) = Lt) by (apply Qclt_alt; exact H).
  rewrite E. reflexivity.
Qed.


Lemma Qcopp_zero : - 0 = 0.
Proof. apply Qc_eq_this. reflexivity. Qed.



Lemma np_abs_nonzero (x : Qc) : x <> 0 -> np_abs x <> 0.
Proof. intros H E. apply H. apply Qcabs_null. exact E. Qed.

Lemma Qc_one_nonzero : (1 : Qc) <> 0.
Proof. intro H. apply (f_equal this) in H. discriminate H. Qed.

Lemma Qcpower_nonzero (x : Qc) (n : nat) : x <> 0 -> x ^ n <> 0.
Proof.
  intro H. induction n as [| n IH]; simpl.
  - exact Qc_one_nonzero.
  - intro E. destruct (Qcmult_integral _ _ E) as [E1 | E1]; contradiction.
Qed.

(** The denominator of the guarded division is never zero. *)
Lemma denominator_nonzero (dx : Qc) (n : nat) : dx <> 0 -> np_abs dx ^ n <> 0.
Proof. intro H. apply Qcpower_nonzero. apply np_abs_nonzero. exact H. Qed.


(** ** The guarded force expression *)

Lemma guarded_force_zero (d : Qc) (n : nat) : guarded_force d n 0 = 0.
Proof.
  unfold guarded_force. destruct (Qc_eq_dec 0 0) as [_ | H]; [reflexivity | now elim H].
Qed.

Lemma guarded_force_nonzero (d : Qc) (n : nat) (dx : Qc) :
  dx <> 0 -> guarded_force d n dx = d * np_sign dx / (np_abs dx ^ n).
Proof.
  intro H. unfold guarded_force. destruct (Qc_eq_dec dx 0) as [E | _]; [contradiction | reflexivity].
Qed.


(** ** The particle store *)

Lemma nth_error_middle {A} (front : list A) (x : A) (back : list A) :
  nth_error (front ++ x :: back) (List.length front) = Some x.
Proof.
  induction front as [| a front IH]; simpl; [reflexivity | exact IH].
Qed.

Lemma store_middle (front : list Engine.Particle) (p q : Engine.Particle)
      (back : list Engine.Particle) :
  Engine.store (List.length front) q (front ++ p :: back) = front ++ q :: back.
Proof.
  induction front as [| a front IH]; simpl; [reflexivity | now rewrite IH].
Qed.

(** ** The inner loop *)

Section InnerLoop.

Variable s : Engine.Settings.

(** Past the particle's own place nothing is skipped. *)
Lemma for_mates_after (i j : nat) (mates : list Engine.Particle) (q : Engine.Particle) :
  (i < j)%nat -> Engine.for_mates s i j mates q = Engine.accumulate s mates q.
Proof.
  revert j q. induction mates as [| m mates IH]; intros j q Hij; simpl.
  - reflexivity.
  - assert (E : Nat.eqb j i = false) by (apply Nat.eqb_neq; lia).
    rewrite E. unfold Engine.accumulate. simpl. apply IH. lia.
Qed.

(** Before the particle's own place nothing is skipped either. *)
Lemma for_mates_before (i j : nat) (front back : list Engine.Particle) (q : Engine.Particle) :
  (j + List.length front <= i)%nat ->
  Engine.for_mates s i j (front ++ back) q
  = Engine.for_mates s i (j + List.length front) back (Engine.accumulate s front q).
Proof.
  revert j q. induction front as [| m front IH]; intros j q Hij; simpl.
  - now rewrite Nat.add_0_r.
  - simpl in Hij.
    assert (E : Nat.eqb j i = false) by (apply Nat.eqb_neq; lia).
    rewrite E. rewrite IH by lia.
    replace (S j + List.length front)%nat with (j + S (List.length front))%nat by lia.
    reflexivity.
Qed.

(** The inner loop for the particle at the place after [front]: the
    object at that place is skipped, all others contribute. *)
Lemma for_mates_middle (front back : list Engine.Particle) (p q : Engine.Particle) :
  Engine.for_mates s (List.length front) 0 (front ++ p :: back) q
  = Engine.accumulate s (front ++ back) q.
Proof.
  rewrite for_mates_before by lia. simpl.
  rewrite Nat.eqb_refl.
  rewrite for_mates_after by lia.
  unfold Engine.accumulate. now rewrite fold_left_app.
Qed.

(** One turn of the outer loop at the place after [front]. *)
Lemma loop_body_middle (w : Engine.World) (poss : list Qc)
      (front back : list Engine.Particle) (p : Engine.Particle) :
  Engine.particles w = front ++ p :: back ->
  let p' := Engine.advance s (Engine.particle_L w) (Engine.particle_R w) (front ++ back) p in
  Engine.loop_body s (w, poss) (List.length front)
  = (Engine.set_particles w (front ++ p' :: back), poss ++ Engine.position p' :: nil).
Proof.
  intros Hw p'. unfold Engine.loop_body.
  rewrite Hw, nth_error_middle, for_mates_middle, store_middle.
  reflexivity.
Qed.

(** The outer loop from the place after [front] to the end. *)
Lemma loop_sweep (todo front : list Engine.Particle) (w : Engine.World) (poss : list Qc) :
  Engine.particles w = front ++ todo ->
  let todo' := Engine.sweep s (Engine.particle_L w) (Engine.particle_R w) front todo in
  fold_left (Engine.loop_body s) (seq (List.length front) (List.length todo)) (w, poss)
  = (Engine.set_particles w (front ++ todo'), poss ++ map Engine.position todo').
Proof.
  revert front w poss. induction todo as [| p rest IH]; intros front w poss Hw;
    cbn [List.length seq fold_left Engine.sweep map].
  - rewrite !app_nil_r. rewrite app_nil_r in Hw. rewrite <- Hw.
    destruct w; reflexivity.
  - rewrite (loop_body_middle w poss front rest p Hw).
    set (p' := Engine.advance s (Engine.particle_L w) (Engine.particle_R w) (front ++ rest) p).
    set (w1 := Engine.set_particles w (front ++ p' :: rest)).
    assert (Hw1 : Engine.particles w1 = (front ++ p' :: nil) ++ rest)
      by (unfold w1; simpl; now rewrite <- app_assoc).
    specialize (IH (front ++ p' :: nil) w1 (poss ++ Engine.position p' :: nil) Hw1).
    cbv zeta in IH. rewrite length_app in IH. cbn [List.length] in IH.
    rewrite Nat.add_1_r in IH. rewrite IH.
    unfold w1, Engine.set_particles. cbn [Engine.particle_L Engine.particle_R].
    fold p'. rewrite <- !app_assoc. reflexivity.
Qed.

(** The simulation part of the callback is the sweep of the list. *)
Lemma simulate_sweep (w : Engine.World) :
  let ps' := Engine.sweep s (Engine.particle_L w) (Engine.particle_R w) nil (Engine.particles w) in
  Engine.simulate s w = (Engine.set_particles w ps', map Engine.position ps').
Proof.
  intro ps'. unfold Engine.simulate.
  exact (loop_sweep (Engine.particles w) nil w nil eq_refl).
Qed.

End InnerLoop.

(** ** One turn of the outer loop *)

Section Turn.

Variable s : Engine.Settings.

Lemma compute_force_position (p m : Engine.Particle) (d : Qc) (n : nat) :
  Engine.position (Engine.compute_force p m d n) = Engine.position p.
Proof. reflexivity. Qed.

Lemma compute_force_total (p m : Engine.Particle) :
  Engine.total_force
    (Engine.compute_force p m (Engine.direction s) (Engine.FORCE_DECAY_POWER s))
  = Engine.total_force p
    + Engine.contribution s (Engine.position p) (Engine.position m).
Proof. reflexivity. Qed.

Lemma accumulate_position (mates : list Engine.Particle) (q : Engine.Particle) :
  Engine.position (Engine.accumulate s mates q) = Engine.position q.
Proof.
  revert q. unfold Engine.accumulate.
  induction mates as [| m mates IH]; intro q; simpl; [reflexivity |].
  now rewrite IH.
Qed.

Lemma accumulate_total (mates : list Engine.Particle) (q : Engine.Particle) :
  Engine.total_force (Engine.accumulate s mates q)
  = Engine.total_force q
    + Qcsum (map (Engine.contribution s (Engine.position q))
                 (map Engine.position mates)).
Proof.
  revert q. unfold Engine.accumulate.
  induction mates as [| m mates IH]; intro q; simpl.
  - now rewrite Qcplus_0_r.
  - rewrite IH, compute_force_total, compute_force_position. ring.
Qed.

(** The force a particle holds after its turn. *)
Lemma advance_total (L R : Engine.Particle) (mates : list Engine.Particle)
      (p : Engine.Particle) :
  Engine.total_force (Engine.advance s L R mates p)
  = Engine.net_force s (Engine.position L) (Engine.position R) (Engine.position p)
                     (map Engine.position mates).
Proof.
  unfold Engine.advance, Engine.move, Engine.net_force. cbn [Engine.set_position Engine.total_force].
  rewrite accumulate_total, !compute_force_total, !compute_force_position.
  cbn [Engine.set_total_force Engine.total_force Engine.position]. ring.
Qed.

(** The position a particle holds after its turn. *)
Lemma advance_move (L R : Engine.Particle) (mates : list Engine.Particle)
      (p : Engine.Particle) :
  Engine.position (Engine.advance s L R mates p)
  = Engine.position p
    + Engine.FORCE_POSITION_GAIN s * Engine.total_force (Engine.advance s L R mates p).
Proof.
  unfold Engine.advance, Engine.move. cbn [Engine.set_position Engine.position Engine.total_force].
  rewrite accumulate_position, !compute_force_position. reflexivity.
Qed.

Lemma advance_position_eq (L R : Engine.Particle) (mates : list Engine.Particle)
      (p : Engine.Particle) :
  Engine.position (Engine.advance s L R mates p)
  = Engine.advance_position s (Engine.position L) (Engine.position R)
                            (map Engine.position mates) (Engine.position p).
Proof. rewrite advance_move, advance_total. reflexivity. Qed.

Lemma sweep_length (L R : Engine.Particle) (todo front : list Engine.Particle) :
  List.length (Engine.sweep s L R front todo) = List.length todo.
Proof.
  revert front. induction todo as [| p rest IH]; intro front; simpl; auto.
Qed.

(** The sweep on particles is the relaxation on their positions. *)
Lemma sweep_positions (L R : Engine.Particle) (todo front : list Engine.Particle) :
  map Engine.position (Engine.sweep s L R front todo)
  = Engine.relax s (Engine.position L) (Engine.position R)
                 (map Engine.position front) (map Engine.position todo).
Proof.
  revert front. induction todo as [| p rest IH]; intro front;
    cbn [Engine.sweep Engine.relax map]; [reflexivity |].
  rewrite IH, !map_app. cbn [map]. rewrite !advance_position_eq, !map_app.
  reflexivity.
Qed.

(** The particle at place [i] after the sweep: it had its turn among
    the new versions of the particles in front of it and the old
    versions of the particles behind it. *)
Lemma sweep_nth (L R : Engine.Particle) (todo front : list Engine.Particle)
      (i : nat) (p : Engine.Particle) :
  nth_error todo i = Some p ->
  nth_error (Engine.sweep s L R front todo) i
  = Some (Engine.advance s L R
            (front ++ firstn i (Engine.sweep s L R front todo) ++ skipn (S i) todo) p).
Proof.
  revert front i. induction todo as [| q rest IH]; intros front i Hi.
  - destruct i; discriminate Hi.
  - destruct i as [| i]; cbn [Engine.sweep nth_error firstn skipn] in *.
    + injection Hi as ->. reflexivity.
    + rewrite (IH _ _ Hi). rewrite <- app_assoc. reflexivity.
Qed.

Lemma tick_particles (w : Engine.World) :
  Engine.particles (Engine.tick s w)
  = Engine.sweep s (Engine.particle_L w) (Engine.particle_R w) nil (Engine.particles w).
Proof. unfold Engine.tick. rewrite simulate_sweep. reflexivity. Qed.

Lemma tick_positions (w : Engine.World) :
  Engine.positions (Engine.tick s w)
  = Engine.relax s (Engine.position_L w) (Engine.position_R w) nil (Engine.positions w).
Proof.
  unfold Engine.positions. rewrite tick_particles, sweep_positions. reflexivity.
Qed.

Lemma tick_particle_L (w : Engine.World) :
  Engine.particle_L (Engine.tick s w) = Engine.particle_L w.
Proof. unfold Engine.tick. rewrite simulate_sweep. reflexivity. Qed.

Lemma tick_particle_R (w : Engine.World) :
  Engine.particle_R (Engine.tick s w) = Engine.particle_R w.
Proof. unfold Engine.tick. rewrite simulate_sweep. reflexivity. Qed.

Lemma tick_length (w : Engine.World) :
  List.length (Engine.particles (Engine.tick s w)) = List.length (Engine.particles w).
Proof. rewrite tick_particles. apply sweep_length. Qed.

(** The callback does not depend on the frame number. *)
Lemma update_graphics_tick (frame : Z) (w : Engine.World) :
  fst (Engine.update_graphics s frame w) = Engine.tick s w.
Proof.
  unfold Engine.update_graphics, Engine.tick.
  destruct (Engine.simulate s w) as [w' poss]. reflexivity.
Qed.

Lemma run_ticks (frames : list Z) (w : Engine.World) :
  Engine.run s frames w = Engine.ticks s (List.length frames) w.
Proof.
  unfold Engine.run, Engine.ticks. revert w.
  induction frames as [| frame frames IH]; intro w; [reflexivity |].
  cbn [fold_left List.length]. rewrite IH, update_graphics_tick.
  generalize (List.length frames) as n. intro n.
  induction n as [| n IHn]; [reflexivity |]. simpl. now rewrite IHn.
Qed.

(** [poss] is the list of the positions after the loop. *)
Lemma update_graphics_poss (frame : Z) (w : Engine.World) :
  Engine.poss (snd (Engine.update_graphics s frame w))
  = Engine.positions (Engine.tick s w).
Proof.
  unfold Engine.update_graphics, Engine.tick, Engine.positions.
  rewrite simulate_sweep. reflexivity.
Qed.

End Turn.

(** ** The frame of a tick *)

Lemma ticks_succ (s : Engine.Settings) (n : nat) (w : Engine.World) :
  Engine.ticks s (S n) w = Engine.tick s (Engine.ticks s n w).
Proof. reflexivity. Qed.

Lemma ticks_particle_L (s : Engine.Settings) (n : nat) (w : Engine.World) :
  Engine.particle_L (Engine.ticks s n w) = Engine.particle_L w.
Proof.
  induction n as [| n IH]; [reflexivity |].
  now rewrite ticks_succ, tick_particle_L.
Qed.

Lemma ticks_particle_R (s : Engine.Settings) (n : nat) (w : Engine.World) :
  Engine.particle_R (Engine.ticks s n w) = Engine.particle_R w.
Proof.
  induction n as [| n IH]; [reflexivity |].
  now rewrite ticks_succ, tick_particle_R.
Qed.

(** C5. Every call of the callback leaves the two boundary particles as
    they are, position and accumulated force alike, after any sequence of
    frames; what a call changes is the list of free particles only (the
    world after the call is the old world with a new list [particles]). *)
Theorem C5_boundary_particles_unchanged
        (s : Engine.Settings) (frames : list Z) (w : Engine.World) :
  Engine.particle_L (Engine.run s frames w) = Engine.particle_L w
  /\ Engine.particle_R (Engine.run s frames w) = Engine.particle_R w
  /\ Engine.tick s w = Engine.set_particles w (Engine.particles (Engine.tick s w)).
Proof.
  rewrite run_ticks. split; [apply ticks_particle_L |].
  split; [apply ticks_particle_R |].
  unfold Engine.tick. rewrite simulate_sweep. reflexivity.
Qed.

(** ** Position integration *)

(** C3. The position of every free particle after a tick is its position
    before the tick plus [FORCE_POSITION_GAIN] times the force it has
    accumulated during that tick (the force it holds after the tick);
    [Particle.move] is that step, and the callback of
    [particles_1d_line_segment_03_02.py] makes the same step with the sum
    of its two forces. *)
Theorem C3_position_integration
        (s : Engine.Settings) (w : Engine.World) (i : nat) (p : Engine.Particle) :
  nth_error (Engine.particles w) i = Some p ->
  (forall gain, Engine.position (Engine.move p gain)
                = Engine.position p + gain * Engine.total_force p)
  /\ (forall s3 frame x,
         fst (Script03.update_graphics s3 frame x)
         = x + Script03.FORCE_POSITION_GAIN s3
               * (Script03.force_left_particle s3 x + Script03.force_right_particle s3 x))
  /\ exists p',
      nth_error (Engine.particles (Engine.tick s w)) i = Some p'
      /\ Engine.position p'
         = Engine.position p + Engine.FORCE_POSITION_GAIN s * Engine.total_force p'.
Proof.
  intro Hp. split; [reflexivity |]. split; [reflexivity |].
  rewrite tick_particles. rewrite (sweep_nth s _ _ _ nil i p Hp).
  eexists. split; [reflexivity |]. apply advance_move.
Qed.

(** The second free particle of [particles_1d_line_segment_04_02.py.py]
    in the first tick. *)
Lemma C3_position_integration_witness :
  exists p',
    nth_error (Engine.particles (Engine.tick Engine.file_settings Engine.world_04_02)) 1
    = Some p'
    /\ Engine.position p'
       = Q2Qc 2 + Engine.FORCE_POSITION_GAIN Engine.file_settings * Engine.total_force p'.
Proof.
  exact (proj2 (proj2 (C3_position_integration Engine.file_settings Engine.world_04_02 1
                  (Engine.Particle_init (Q2Qc 2) "2"%string "go"%string) eq_refl))).
Defined.

(** ** The order of the updates within a tick *)





(** ** Determinism *)

Lemma ticks_positions_determined (s : Engine.Settings) (n : nat) (w1 w2 : Engine.World) :
  Engine.positions w1 = Engine.positions w2 ->
  Engine.position_L w1 = Engine.position_L w2 ->
  Engine.position_R w1 = Engine.position_R w2 ->
  Engine.positions (Engine.ticks s n w1) = Engine.positions (Engine.ticks s n w2).
Proof.
  intros Hp Hl Hr. induction n as [| n IH]; [exact Hp |].
  rewrite !ticks_succ, !tick_positions, IH.
  unfold Engine.position_L, Engine.position_R in *.
  rewrite !ticks_particle_L, !ticks_particle_R, Hl, Hr. reflexivity.
Qed.

(** C9. Two runs of the same number of ticks under the same settings,
    from worlds with the same positions (free and boundary particles),
    end with the same positions for every free particle: the result
    depends on nothing else, neither on the frame numbers passed to the
    callback nor on the names, colours and forces the particles hold at
    the start. *)
Theorem C9_runs_are_deterministic
        (s : Engine.Settings) (frames1 frames2 : list Z) (w1 w2 : Engine.World) :
  List.length frames1 = List.length frames2 ->
  Engine.positions w1 = Engine.positions w2 ->
  Engine.position_L w1 = Engine.position_L w2 ->
  Engine.position_R w1 = Engine.position_R w2 ->
  Engine.positions (Engine.run s frames1 w1) = Engine.positions (Engine.run s frames2 w2).
Proof.
  intros Hn Hp Hl Hr. rewrite !run_ticks, Hn.
  apply ticks_positions_determined; assumption.
Qed.

(** Three frames from the world of
    [particles_1d_line_segment_04_02.py.py] and from a world with the same
    positions, other names and colours and a force left on the first
    particle, under other frame numbers. *)
Lemma C9_runs_are_deterministic_witness :
  Engine.positions
    (Engine.run Engine.file_settings (0 :: 1 :: 2 :: nil)%Z Engine.world_04_02)
  = Engine.positions
      (Engine.run Engine.file_settings (7 :: 8 :: 9 :: nil)%Z
         (Engine.set_particles Engine.world_04_02
            (Engine.set_total_force (Engine.Particle_init 1 "a"%string "b"%string) 1
             :: Engine.Particle_init (Q2Qc 2) "c"%string "d"%string :: nil))).
Proof.
  apply (C9_runs_are_deterministic Engine.file_settings
           (0 :: 1 :: 2 :: nil)%Z (7 :: 8 :: 9 :: nil)%Z);
    reflexivity.
Defined.

(** ** The force law *)

(** The contribution that [Particle.compute_force] adds to [total_force]:
    0 at zero separation, otherwise [direction * sign(dx) / |dx|^FORCE_DECAY]
    with sign +1 for [dx > 0] and -1 for [dx < 0]; [direction] is +1 in
    repulsive and -1 in attractive mode.  The callback of
    [particles_1d_line_segment_03_02.py] computes its two forces with the
    same expression. *)
Lemma compute_force_law (s : Engine.Settings) (self mate : Engine.Particle) :
  let dx := Engine.position self - Engine.position mate in
  let direction := if Engine.IS_REPULSIVE s then (1 : Qc) else Qcopp 1 in
  let added :=
    Engine.total_force
      (Engine.compute_force self mate (Engine.direction s) (Engine.FORCE_DECAY_POWER s))
    - Engine.total_force self in
  (dx = 0 -> added = 0)
  /\ (0 < dx -> added = direction * 1 / (np_abs dx ^ Engine.FORCE_DECAY_POWER s))
  /\ (dx < 0 -> added = direction * Qcopp 1 / (np_abs dx ^ Engine.FORCE_DECAY_POWER s)).
Proof.
  intros dx direction added.
  assert (E : added = guarded_force (Engine.direction s) (Engine.FORCE_DECAY_POWER s) dx).
  { unfold added, Engine.compute_force. cbn [Engine.total_force Engine.set_total_force].
    fold dx. ring. }
  rewrite E. clear E added. repeat split.
  - intros ->. apply guarded_force_zero.
  - intro H. rewrite (guarded_force_nonzero _ _ _ (not_eq_sym (Qclt_not_eq _ _ H))).
    rewrite (np_sign_pos _ H). reflexivity.
  - intro H. rewrite (guarded_force_nonzero _ _ _ (Qclt_not_eq _ _ H)).
    rewrite (np_sign_neg _ H). reflexivity.
Qed.

(** With [IS_REPULSIVE = 1] the callback of
    [particles_1d_line_segment_03_02.py.py] computes the same forces as
    the one of [particles_1d_line_segment_03_02.py] in repulsive mode. *)
Lemma sign_power_variant_repulsive (s : Script03a.Settings) (x : Qc) :
  Script03a.IS_REPULSIVE s = 1%nat ->
  Script03a.force_left_particle s x
  = guarded_force 1 (Script03a.FORCE_DECAY_POWER s) (x - Script03a.PARTICLE_LEFT_POSITION s)
  /\ Script03a.force_right_particle s x
     = guarded_force 1 (Script03a.FORCE_DECAY_POWER s)
                     (x - Script03a.PARTICLE_RIGHT_POSITION s).
Proof.
  intro H. unfold Script03a.force_left_particle, Script03a.force_right_particle,
             guarded_force.
  rewrite H. cbn [Qcpower]. rewrite !Qcmult_1_r, !Qcmult_1_l. split; reflexivity.
Qed.

(** C2 on [particles_1d_line_segment_03_02.py.py] with
    [IS_REPULSIVE = 0] (attractive, by the comment on that line): for the
    free particle at 1 and the left particle at 0 ([dx = 1]) the script
    computes the force [sign(dx)**0 / |dx| = +1], where the force law with
    direction -1 gives -1, as [particles_1d_line_segment_03_02.py] does in
    attractive mode; the particle is moved from 1 to 28/25, away from the
    nearer boundary, and to 23/25 by the other script. *)
Theorem C2_sign_power_variant_attractive :
  Script03a.force_left_particle Script03a.attractive_settings 1 = 1
  /\ guarded_force (Qcopp 1) 1 (1 - 0) = Qcopp 1
  /\ Script03.force_left_particle Script03.attractive_settings 1 = Qcopp 1
  /\ Script03a.update_graphics Script03a.attractive_settings 0 1 = Q2Qc (28 # 25)
  /\ fst (Script03.update_graphics Script03.attractive_settings 0 1) = Q2Qc (23 # 25).
Proof.
  repeat split; apply Qc_eq_this; vm_compute; reflexivity.
Qed.

(** * The scripts on binary64 numbers *)

(** ** Binary64 values and their opposites *)

(** Settles the cases of an operation whose arguments are not both
    finite: what is left after evaluation is decided by the signs. *)
Ltac by_signs :=
  cbn;
  repeat match goal with s : bool |- _ => destruct s end;
  cbn; first [exact I | reflexivity | discriminate | tauto].

Section SpecFloats.

Local Open Scope Z_scope.

Lemma SFsame_refl a : SFsame a a.
Proof. destruct a; simpl; auto. Qed.

Lemma SFsame_sym a b : SFsame a b -> SFsame b a.
Proof. destruct a, b; simpl; intro H; auto; discriminate H. Qed.

Lemma SFsame_trans a b c : SFsame a b -> SFsame b c -> SFsame a c.
Proof.
  destruct a, b, c; simpl; intros H1 H2; auto; try discriminate H1; try discriminate H2;
    congruence.
Qed.

Lemma SFopp_same a b : SFsame a b -> SFsame (SFopp a) (SFopp b).
Proof.
  destruct a, b; simpl; intro H; auto; try discriminate H; inversion H; reflexivity.
Qed.

Lemma SFopp_binary_round_aux s m e l :
  SFopp (binary_round_aux prec emax s m e l) = binary_round_aux prec emax (negb s) m e l.
Proof.
  unfold binary_round_aux.
  destruct (shr_fexp prec emax m e l) as [r1 e1].
  destruct (shr_fexp prec emax _ e1 loc_Exact) as [r2 e2].
  destruct (shr_m r2); [reflexivity | | reflexivity].
  destruct (e2 <=? emax - prec); reflexivity.
Qed.

Lemma SFopp_binary_round s m e :
  SFopp (binary_round prec emax s m e) = binary_round prec emax (negb s) m e.
Proof.
  unfold binary_round.
  destruct (shl_align m e _) as [mz ez]. apply SFopp_binary_round_aux.
Qed.

Lemma binary_normalize_opp m e :
  SFsame (binary_normalize prec emax (- m) e false)
         (SFopp (binary_normalize prec emax m e false)).
Proof.
  destruct m as [| p | p]; unfold binary_normalize; cbn [Z.opp].
  - exact I.
  - rewrite SFopp_binary_round. apply SFsame_refl.
  - rewrite SFopp_binary_round. apply SFsame_refl.
Qed.

Lemma cond_Zopp_negb s m : cond_Zopp (negb s) m = - cond_Zopp s m.
Proof. destruct s; simpl; lia. Qed.

Lemma SFadd_opp a b :
  SFsame (SF64add (SFopp a) (SFopp b)) (SFopp (SF64add a b)).
Proof.
  unfold SF64add.
  destruct a as [sa | sa | | sa ma ea], b as [sb | sb | | sb mb eb];
    try solve [by_signs].
  cbn [SFopp SFadd]. rewrite !cond_Zopp_negb, <- Z.opp_add_distr.
  apply binary_normalize_opp.
Qed.

Lemma SFsub_opp a b :
  SFsame (SF64sub (SFopp a) (SFopp b)) (SFopp (SF64sub a b)).
Proof.
  unfold SF64sub.
  destruct a as [sa | sa | | sa ma ea], b as [sb | sb | | sb mb eb];
    try solve [by_signs].
  cbn [SFopp SFsub]. rewrite !cond_Zopp_negb.
  replace (- cond_Zopp sa (Z.pos (fst (shl_align ma ea (Z.min ea eb))))
           - - cond_Zopp sb (Z.pos (fst (shl_align mb eb (Z.min ea eb)))))
    with (- (cond_Zopp sa (Z.pos (fst (shl_align ma ea (Z.min ea eb))))
             - cond_Zopp sb (Z.pos (fst (shl_align mb eb (Z.min ea eb)))))) by lia.
  apply binary_normalize_opp.
Qed.

Lemma xorb_negb_r a b : xorb a (negb b) = negb (xorb a b).
Proof. destruct a, b; reflexivity. Qed.

Lemma xorb_negb_l a b : xorb (negb a) b = negb (xorb a b).
Proof. destruct a, b; reflexivity. Qed.

Lemma SFmul_opp_r a b : SF64mul a (SFopp b) = SFopp (SF64mul a b).
Proof.
  unfold SF64mul.
  destruct a as [sa | sa | | sa ma ea], b as [sb | sb | | sb mb eb];
    try solve [by_signs].
  cbn [SFopp SFmul]. rewrite SFopp_binary_round_aux, xorb_negb_r. reflexivity.
Qed.

Lemma SFdiv_opp_l a b : SF64div (SFopp a) b = SFopp (SF64div a b).
Proof.
  unfold SF64div.
  destruct a as [sa | sa | | sa ma ea], b as [sb | sb | | sb mb eb];
    try solve [by_signs].
  cbn [SFopp SFdiv].
  destruct (SFdiv_core_binary prec emax (Z.pos ma) ea (Z.pos mb) eb) as [[mz ez] lz].
  rewrite SFopp_binary_round_aux, xorb_negb_l. reflexivity.
Qed.

Lemma SFabs_opp a : SFabs (SFopp a) = SFabs a.
Proof. destruct a; reflexivity. Qed.

Lemma SFopp_involutive a : SFopp (SFopp a) = a.
Proof. destruct a; cbn; rewrite ?negb_involutive; reflexivity. Qed.

(** The operations respect [SFsame]. *)
Lemma SFadd_same a a' b b' :
  SFsame a a' -> SFsame b b' -> SFsame (SF64add a b) (SF64add a' b').
Proof.
  unfold SF64add.
  destruct a as [sa | sa | | sa ma ea], a' as [sa' | sa' | | sa' ma' ea'];
    cbn [SFsame]; intro Ha; try discriminate Ha; try (injection Ha as -> ); subst;
    destruct b as [sb | sb | | sb mb eb], b' as [sb' | sb' | | sb' mb' eb'];
    cbn [SFsame]; intro Hb; try discriminate Hb; try (injection Hb as ->); subst;
    try solve [by_signs]; try apply SFsame_refl.
Qed.

Lemma SFsub_same a a' b b' :
  SFsame a a' -> SFsame b b' -> SFsame (SF64sub a b) (SF64sub a' b').
Proof.
  unfold SF64sub.
  destruct a as [sa | sa | | sa ma ea], a' as [sa' | sa' | | sa' ma' ea'];
    cbn [SFsame]; intro Ha; try discriminate Ha; try (injection Ha as -> ); subst;
    destruct b as [sb | sb | | sb mb eb], b' as [sb' | sb' | | sb' mb' eb'];
    cbn [SFsame]; intro Hb; try discriminate Hb; try (injection Hb as ->); subst;
    try solve [by_signs]; try apply SFsame_refl.
Qed.

Lemma SFmul_same a b b' :
  SFsame b b' -> SFsame (SF64mul a b) (SF64mul a b').
Proof.
  unfold SF64mul.
  destruct b as [sb | sb | | sb mb eb], b' as [sb' | sb' | | sb' mb' eb'];
    cbn [SFsame]; intro Hb; try discriminate Hb; try (injection Hb as ->); subst;
    try apply SFsame_refl.
  destruct a; by_signs.
Qed.

Lemma SFadd_comm a b : SF64add a b = SF64add b a.
Proof.
  unfold SF64add.
  destruct a as [sa | sa | | sa ma ea], b as [sb | sb | | sb mb eb];
    try solve [by_signs].
  cbn [SFadd]. rewrite (Z.min_comm eb ea). f_equal. apply Z.add_comm.
Qed.
(** ** Comparison of binary64 numbers *)

Lemma SFeqb_same a b : SFeqb a b = true -> SFsame a b.
Proof.
  destruct a as [sa | sa | | sa ma ea], b as [sb | sb | | sb mb eb];
    try solve [by_signs].
  unfold SFeqb, SFcompare. cbn [SFsame].
  destruct sa, sb; try discriminate;
    destruct (ea ?= eb)%Z eqn:Ee; try discriminate;
    destruct (Pos.compare_cont Eq ma mb) eqn:Em; try discriminate;
    intros _; apply Z.compare_eq in Ee; apply Pcompare_Eq_eq in Em; subst; reflexivity.
Qed.

Lemma SFeqb_refl a : a <> S754_nan -> SFeqb a a = true.
Proof.
  destruct a as [sa | sa | | sa ma ea]; intro H; try solve [by_signs].
  unfold SFeqb, SFcompare. rewrite Z.compare_refl, Pcompare_refl.
  destruct sa; reflexivity.
Qed.

Lemma SFsame_eqb a b : SFsame a b -> a <> S754_nan -> SFeqb a b = true.
Proof.
  destruct a as [sa | sa | | sa ma ea], b as [sb | sb | | sb mb eb];
    cbn [SFsame]; intros H N; try discriminate H; try reflexivity.
  - rewrite <- H. apply SFeqb_refl. exact N.
  - now elim N.
  - rewrite <- H. apply SFeqb_refl. exact N.
Qed.

Lemma SFeqb_zero a s : SFeqb a (S754_zero s) = true -> exists s', a = S754_zero s'.
Proof.
  destruct a as [sa | sa | | sa ma ea]; try solve [by_signs].
  intros _. now exists sa.
Qed.

End SpecFloats.

Section Binary64Numbers.

Local Open Scope float_scope.

Lemma Same_refl a : Same a a.
Proof. apply SFsame_refl. Qed.

Lemma Same_sym a b : Same a b -> Same b a.
Proof. apply SFsame_sym. Qed.

Lemma Same_trans a b c : Same a b -> Same b c -> Same a c.
Proof. apply SFsame_trans. Qed.

Lemma SF_zero : Prim2SF 0 = S754_zero false.
Proof. reflexivity. Qed.

Lemma is_nan_spec a : is_nan a = true <-> Prim2SF a = S754_nan.
Proof.
  unfold is_nan. rewrite eqb_spec. split.
  - intro H. destruct (Prim2SF a) eqn:E; try reflexivity;
      rewrite SFeqb_refl in H by discriminate; discriminate H.
  - intros ->. reflexivity.
Qed.

Lemma is_nan_false a : is_nan a = false <-> Prim2SF a <> S754_nan.
Proof.
  rewrite <- is_nan_spec. destruct (is_nan a); split; congruence.
Qed.

(** [same_number] decides [Same]. *)
Lemma same_number_Same a b : Binary64.same_number a b = true <-> Same a b.
Proof.
  unfold Binary64.same_number, Same. rewrite orb_true_iff, andb_true_iff, eqb_spec.
  rewrite !is_nan_spec. split.
  - intros [H | [Ha Hb]]; [apply SFeqb_same, H | rewrite Ha, Hb; reflexivity].
  - intro H. destruct (Prim2SF a) eqn:Ea.
    1,2,4: left; apply SFsame_eqb; [exact H | discriminate].
    right. split; [reflexivity |]. destruct (Prim2SF b); cbn in H; congruence.
Qed.

Lemma Same_of_eqb a b : (a =? b) = true -> Same a b.
Proof. rewrite eqb_spec. apply SFeqb_same. Qed.

Lemma Same_eqb a b : Same a b -> is_nan a = false -> (a =? b) = true.
Proof.
  intros H N. rewrite eqb_spec. apply SFsame_eqb; [exact H |].
  apply is_nan_false, N.
Qed.

Lemma b64_eqb_zero_spec a : (a =? 0) = true <-> exists s, Prim2SF a = S754_zero s.
Proof.
  rewrite eqb_spec, SF_zero. split.
  - apply SFeqb_zero.
  - intros [s ->]. reflexivity.
Qed.

(** Two numbers that are the same are identical unless they are zeros. *)
Lemma Same_cases a b :
  Same a b -> a = b \/ ((a =? 0) = true /\ (b =? 0) = true).
Proof.
  unfold Same. intro H.
  destruct (Prim2SF a) eqn:Ea, (Prim2SF b) eqn:Eb; cbn in H; try discriminate H;
    try (left; apply Prim2SF_inj; congruence).
  right. split; apply b64_eqb_zero_spec; eauto.
Qed.

Lemma Same_zero a b : Same a b -> (a =? 0) = (b =? 0).
Proof.
  intro H. destruct (Same_cases a b H) as [-> | [-> ->]]; reflexivity.
Qed.

(** *** The operations respect [Same] *)

Lemma Same_add a a' b b' : Same a a' -> Same b b' -> Same (a + b) (a' + b').
Proof. unfold Same. rewrite !add_spec. apply SFadd_same. Qed.

Lemma Same_sub a a' b b' : Same a a' -> Same b b' -> Same (a - b) (a' - b').
Proof. unfold Same. rewrite !sub_spec. apply SFsub_same. Qed.

Lemma Same_mul g a a' : Same a a' -> Same (g * a) (g * a').
Proof. unfold Same. rewrite !mul_spec. apply SFmul_same. Qed.

Lemma Same_opp a a' : Same a a' -> Same (- a) (- a').
Proof. unfold Same. rewrite !opp_spec. apply SFopp_same. Qed.

(** *** Negation *)

Lemma b64_add_opp a b : Same (- a + - b) (- (a + b)).
Proof. unfold Same. rewrite !opp_spec, !add_spec, !opp_spec. apply SFadd_opp. Qed.

Lemma b64_sub_opp a b : Same (- a - - b) (- (a - b)).
Proof. unfold Same. rewrite !opp_spec, !sub_spec, !opp_spec. apply SFsub_opp. Qed.

Lemma b64_mul_opp_r g a : g * - a = - (g * a).
Proof.
  apply Prim2SF_inj. rewrite !opp_spec, !mul_spec, !opp_spec. apply SFmul_opp_r.
Qed.

Lemma b64_div_opp_l a b : - a / b = - (a / b).
Proof.
  apply Prim2SF_inj. rewrite !opp_spec, !div_spec, !opp_spec. apply SFdiv_opp_l.
Qed.

Lemma b64_abs_opp a : abs (- a) = abs a.
Proof.
  apply Prim2SF_inj. rewrite !abs_spec, !opp_spec. apply SFabs_opp.
Qed.

Lemma b64_opp_involutive a : - - a = a.
Proof.
  apply Prim2SF_inj. rewrite !opp_spec. apply SFopp_involutive.
Qed.

Lemma b64_add_comm a b : a + b = b + a.
Proof.
  apply Prim2SF_inj. rewrite !add_spec. apply SFadd_comm.
Qed.

Lemma b64_eqb_zero_opp a : (- a =? 0) = (a =? 0).
Proof.
  rewrite !eqb_spec, opp_spec, SF_zero. destruct (Prim2SF a); by_signs.
Qed.

(** [np.sign] is odd away from zero. *)
Lemma np_sign64_opp x :
  (x =? 0) = false -> Binary64.np_sign (- x) = - Binary64.np_sign x.
Proof.
  unfold Binary64.np_sign. rewrite !ltb_spec, !eqb_spec, !opp_spec, SF_zero.
  destruct (Prim2SF x) as [s | s | | s m e] eqn:E; cbn.
  - discriminate.
  - intros _. destruct s; reflexivity.
  - intros _. reflexivity.
  - intros _. destruct s; reflexivity.
Qed.

End Binary64Numbers.

Section Binary64Finite.

Local Open Scope float_scope.

Lemma SF_infinity : Prim2SF infinity = S754_infinity false.
Proof. reflexivity. Qed.

(** A finite number is a zero or has a mantissa and an exponent. *)
Lemma is_finite_spec x :
  is_finite x = true
  <-> (exists s, Prim2SF x = S754_zero s) \/ (exists s m e, Prim2SF x = S754_finite s m e).
Proof.
  unfold is_finite, is_nan, is_infinity.
  rewrite !eqb_spec, abs_spec, SF_infinity. split.
  - destruct (Prim2SF x) as [s | s | | s m e]; cbn; intro H; try discriminate H; eauto 6.
    destruct s; discriminate H.
  - intros [[s ->] | (s & m & e & ->)]; [reflexivity |].
    unfold SFeqb, SFcompare. rewrite Z.compare_refl, Pcompare_refl.
    destruct s; reflexivity.
Qed.

(** The difference of a finite number and itself is [0.0]. *)
Lemma b64_sub_diag x : is_finite x = true -> x - x = 0.
Proof.
  intro H. apply Prim2SF_inj. rewrite sub_spec, SF_zero.
  apply is_finite_spec in H. destruct H as [[s ->] | (s & m & e & ->)].
  - destruct s; reflexivity.
  - unfold SF64sub, SFsub. rewrite Z.sub_diag. reflexivity.
Qed.

(** A finite number and its opposite add up to [0.0]. *)
Lemma b64_add_opp_diag a : is_finite a = true -> a + - a = 0.
Proof.
  intro H. apply Prim2SF_inj. rewrite add_spec, opp_spec, SF_zero.
  apply is_finite_spec in H. destruct H as [[s ->] | (s & m & e & ->)].
  - destruct s; reflexivity.
  - unfold SF64add. cbn [SFopp SFadd]. rewrite cond_Zopp_negb, Z.add_opp_diag_r.
    reflexivity.
Qed.

(** A finite number times a zero is a zero. *)
Lemma b64_mul_zero g z : is_finite g = true -> (z =? 0) = true -> (g * z =? 0) = true.
Proof.
  intros Hg Hz. apply b64_eqb_zero_spec in Hz. destruct Hz as [sz Hz].
  apply b64_eqb_zero_spec. rewrite mul_spec, Hz.
  apply is_finite_spec in Hg. destruct Hg as [[s ->] | (s & m & e & ->)]; cbn; eauto.
Qed.

(** Adding a zero does not change the number. *)
Lemma b64_add_zero x z : (z =? 0) = true -> Same (x + z) x.
Proof.
  intro Hz. apply b64_eqb_zero_spec in Hz. destruct Hz as [sz Hz].
  unfold Same. rewrite add_spec, Hz.
  destruct (Prim2SF x) as [s | s | | s m e]; try reflexivity.
  destruct s, sz; exact I.
Qed.

Lemma b64_zero_add x : Same (0 + x) x.
Proof.
  unfold Same. rewrite add_spec, SF_zero.
  destruct (Prim2SF x) as [s | s | | s m e]; try reflexivity.
  destruct s; exact I.
Qed.

(** [np.abs(dx)] is zero only when [dx] is. *)
Lemma b64_abs_eqb_zero x : (abs x =? 0) = (x =? 0).
Proof.
  rewrite !eqb_spec, abs_spec, SF_zero. destruct (Prim2SF x); by_signs.
Qed.

Lemma b64_eqb_not_nan a b : (a =? b) = true -> is_nan a = false /\ is_nan b = false.
Proof.
  rewrite eqb_spec. intro H. split; apply is_nan_false; intro E; rewrite E in H.
  - discriminate H.
  - destruct (Prim2SF a); discriminate H.
Qed.

(** A difference that is a number comes from two numbers. *)
Lemma b64_sub_not_nan a b : is_nan (a - b) = false -> is_nan a = false.
Proof.
  rewrite !is_nan_false, sub_spec. intros H E. apply H. rewrite E. reflexivity.
Qed.

End Binary64Finite.

(** ** The guarded force expression on binary64 numbers *)

Section Force64.

Local Open Scope float_scope.

Variable direction : float.
Variable FORCE_DECAY : float -> float.

Lemma force64_zero dx :
  (dx =? 0) = true -> Engine64.guarded_force direction FORCE_DECAY dx = 0.
Proof. intro H. unfold Engine64.guarded_force. rewrite H. reflexivity. Qed.

(** The force is the same at separations that are the same number. *)
Lemma force64_same dx dx' :
  Same dx dx' ->
  Engine64.guarded_force direction FORCE_DECAY dx
  = Engine64.guarded_force direction FORCE_DECAY dx'.
Proof.
  intro H. destruct (Same_cases _ _ H) as [-> | [H1 H2]]; [reflexivity |].
  rewrite !force64_zero by assumption. reflexivity.
Qed.

(** The force law is odd in the separation. *)
Lemma force64_opp dx :
  (dx =? 0) = false ->
  Engine64.guarded_force direction FORCE_DECAY (- dx)
  = - Engine64.guarded_force direction FORCE_DECAY dx.
Proof.
  intro H. unfold Engine64.guarded_force, Binary64.np_abs.
  rewrite b64_eqb_zero_opp, H, (np_sign64_opp _ H), b64_abs_opp, b64_mul_opp_r, b64_div_opp_l.
  reflexivity.
Qed.

Lemma force64_odd dx :
  Same (Engine64.guarded_force direction FORCE_DECAY (- dx))
       (- Engine64.guarded_force direction FORCE_DECAY dx).
Proof.
  destruct (dx =? 0) eqn:H.
  - rewrite !force64_zero by (rewrite ?b64_eqb_zero_opp; exact H).
    unfold Same. rewrite opp_spec, SF_zero. exact I.
  - rewrite (force64_opp _ H). apply Same_refl.
Qed.

End Force64.

Lemma force64_power_1 (direction dx : float) :
  Binary64.guarded_force direction dx
  = Engine64.guarded_force direction (fun x => x) dx.
Proof. reflexivity. Qed.

(** ** A sum is the negative zero only if both terms are

    Rounding the exact sum of two binary64 numbers cannot underflow: a
    sum is zero only by cancellation, and then it is [0.0]. *)

Section NoUnderflow.

Local Open Scope Z_scope.

Lemma digits2_pos_bounds (m : positive) :
  2 ^ (Z.pos (digits2_pos m) - 1) <= Z.pos m < 2 ^ Z.pos (digits2_pos m).
Proof.
  induction m as [m IH | m IH |]; cbn [digits2_pos].
  - rewrite Pos2Z.inj_succ. replace (Z.succ (Z.pos (digits2_pos m)) - 1)
      with (Z.succ (Z.pos (digits2_pos m) - 1)) by lia.
    rewrite !Z.pow_succ_r by lia. lia.
  - rewrite Pos2Z.inj_succ. replace (Z.succ (Z.pos (digits2_pos m)) - 1)
      with (Z.succ (Z.pos (digits2_pos m) - 1)) by lia.
    rewrite !Z.pow_succ_r by lia. lia.
  - cbn. lia.
Qed.

Lemma shr_1_m (r : shr_record) :
  0 <= shr_m r -> shr_m (shr_1 r) = shr_m r / 2.
Proof.
  destruct r as [m b c]. cbn [shr_m]. intro H.
  destruct m as [| [p | p |] | p]; cbn [shr_1 shr_m]; try lia.
  - reflexivity.
  - apply Z.div_unique with (r := 1); lia.
  - apply Z.div_unique with (r := 0); lia.
  - reflexivity.
Qed.

Lemma pow2_double (p : positive) : 2 ^ Z.pos p~0 = 2 ^ Z.pos p * 2 ^ Z.pos p.
Proof.
  assert (E : Z.pos p~0 = Z.pos p + Z.pos p) by lia.
  rewrite E. apply Z.pow_add_r; lia.
Qed.

Lemma pow2_double_succ (p : positive) : 2 ^ Z.pos p~1 = 2 * (2 ^ Z.pos p * 2 ^ Z.pos p).
Proof.
  assert (E : Z.pos p~1 = Z.succ (Z.pos p + Z.pos p)) by lia.
  rewrite E, Z.pow_succ_r by lia. rewrite Z.pow_add_r by lia. reflexivity.
Qed.

Lemma iter_pos_shr_1_m (p : positive) (r : shr_record) :
  0 <= shr_m r -> shr_m (iter_pos shr_1 p r) = shr_m r / 2 ^ Z.pos p.
Proof.
  revert r. induction p as [p IH | p IH |]; intros r H; cbn [iter_pos].
  - assert (Hp : 0 < 2 ^ Z.pos p) by (apply Z.pow_pos_nonneg; lia).
    assert (H1 : 0 <= shr_m (shr_1 r)) by (rewrite shr_1_m by lia; apply Z.div_pos; lia).
    assert (H2 : 0 <= shr_m (iter_pos shr_1 p (shr_1 r)))
      by (rewrite IH by lia; apply Z.div_pos; lia).
    rewrite IH, IH, shr_1_m by lia.
    rewrite !Z.div_div by lia. rewrite pow2_double_succ. f_equal; lia.
  - assert (Hp : 0 < 2 ^ Z.pos p) by (apply Z.pow_pos_nonneg; lia).
    assert (H2 : 0 <= shr_m (iter_pos shr_1 p r))
      by (rewrite IH by lia; apply Z.div_pos; lia).
    rewrite IH, IH by lia.
    rewrite !Z.div_div by lia. rewrite pow2_double. reflexivity.
  - rewrite shr_1_m by lia. rewrite Z.pow_1_r. reflexivity.
Qed.

(** Shifting a positive mantissa at an exponent that is not below the
    least one leaves a positive mantissa. *)
Lemma shr_fexp_positive (m : positive) (e : Z) (l : location) :
  emin <= e ->
  0 < shr_m (fst (shr_fexp prec emax (Z.pos m) e l))
  /\ emin <= snd (shr_fexp prec emax (Z.pos m) e l).
Proof.
  intro He. unfold shr_fexp, shr. cbn [Zdigits2].
  assert (Hm : shr_m (shr_record_of_loc (Z.pos m) l) = Z.pos m)
    by (destruct l as [| []]; reflexivity).
  destruct (fexp prec emax (Z.pos (digits2_pos m) + e) - e) as [| n | n] eqn:En;
    cbn [fst snd]; try (rewrite Hm; lia).
  rewrite iter_pos_shr_1_m by (rewrite Hm; lia). rewrite Hm.
  unfold fexp, SpecFloat.emin, emax, prec in *. split; [| lia].
  pose proof (digits2_pos_bounds m) as [Hlo _].
  apply Z.div_str_pos. split; [lia |].
  apply Z.le_trans with (2 ^ (Z.pos (digits2_pos m) - 1)); [| exact Hlo].
  apply Z.pow_le_mono_r; lia.
Qed.

Lemma round_nearest_even_positive (m : Z) (l : location) :
  0 < m -> 0 < round_nearest_even m l.
Proof.
  intro H. destruct l as [| []]; cbn [round_nearest_even]; try lia.
  destruct (Z.even m); lia.
Qed.

Lemma binary_round_aux_not_zero (s s' : bool) (m : positive) (e : Z) (l : location) :
  emin <= e -> binary_round_aux prec emax s (Z.pos m) e l <> S754_zero s'.
Proof.
  intro He. unfold binary_round_aux.
  pose proof (shr_fexp_positive m e l He) as [H1 H2].
  destruct (shr_fexp prec emax (Z.pos m) e l) as [r1 e1]. cbn [fst snd] in H1, H2.
  pose proof (round_nearest_even_positive (shr_m r1) (loc_of_shr_record r1) H1) as H3.
  destruct (round_nearest_even (shr_m r1) (loc_of_shr_record r1)) as [| m2 | m2];
    try lia.
  pose proof (shr_fexp_positive m2 e1 loc_Exact H2) as [H4 _].
  destruct (shr_fexp prec emax (Z.pos m2) e1 loc_Exact) as [r2 e2]. cbn [fst] in H4.
  destruct (shr_m r2); try lia.
  destruct (e2 <=? emax - prec); discriminate.
Qed.

Lemma binary_round_not_zero (s s' : bool) (m : positive) (e : Z) :
  emin <= e -> binary_round prec emax s m e <> S754_zero s'.
Proof.
  intro He. unfold binary_round, shl_align.
  destruct (fexp prec emax (Z.pos (digits2_pos m) + e) - e) as [| n | n] eqn:En;
    try (apply binary_round_aux_not_zero; exact He).
  apply binary_round_aux_not_zero.
  unfold fexp, SpecFloat.emin, emax, prec in *. lia.
Qed.

(** The exponent of a binary64 number is not below the least one. *)
Lemma valid_exponent (s : bool) (m : positive) (e : Z) :
  valid_binary (S754_finite s m e) = true -> emin <= e.
Proof.
  cbn [SpecFloat.valid_binary]. unfold bounded, canonical_mantissa.
  intro H. apply andb_true_iff in H. destruct H as [H _].
  apply Z.eqb_eq in H. unfold fexp, SpecFloat.emin, emax, prec in *. lia.
Qed.

Lemma SFadd_negative_zero (a b : spec_float) :
  valid_binary a = true -> valid_binary b = true ->
  SF64add a b = S754_zero true -> a = S754_zero true.
Proof.
  intros Ha Hb. unfold SF64add.
  destruct a as [sa | sa | | sa ma ea], b as [sb | sb | | sb mb eb];
    try solve [by_signs].
  apply valid_exponent in Ha. apply valid_exponent in Hb.
  cbn [SFadd]. unfold binary_normalize.
  destruct (cond_Zopp sa _ + cond_Zopp sb _) as [| n | n]; [discriminate | |];
    intro H; exfalso; revert H; apply binary_round_not_zero; lia.
Qed.

End NoUnderflow.

(** ** The three-particle script on binary64 numbers *)

Section Script64.

Local Open Scope float_scope.

Lemma Same_nan a b : Same a b -> is_nan a = is_nan b.
Proof.
  intro H. destruct (Same_cases _ _ H) as [-> | [Ha Hb]]; [reflexivity |].
  apply b64_eqb_not_nan in Ha. apply b64_eqb_not_nan in Hb.
  destruct Ha as [-> _], Hb as [-> _]. reflexivity.
Qed.

Variable s : Script64.Settings.

Let L := Script64.PARTICLE_LEFT_POSITION s.
Let R := Script64.PARTICLE_RIGHT_POSITION s.

(** The callback maps the same number to the same number. *)
Lemma update_graphics_same (frame : Z) (x y : float) :
  Same x y ->
  Same (fst (Script64.update_graphics s frame x)) (fst (Script64.update_graphics s frame y)).
Proof.
  intro H. cbn [Script64.update_graphics fst].
  unfold Script64.force_left_particle, Script64.force_right_particle.
  rewrite (force64_same _ _ (x - Script64.PARTICLE_LEFT_POSITION s)
             (y - Script64.PARTICLE_LEFT_POSITION s))
    by (apply Same_sub; [exact H | apply Same_refl]).
  rewrite (force64_same _ _ (x - Script64.PARTICLE_RIGHT_POSITION s)
             (y - Script64.PARTICLE_RIGHT_POSITION s))
    by (apply Same_sub; [exact H | apply Same_refl]).
  apply Same_add; [exact H | apply Same_refl].
Qed.

Lemma run_same (frames : list Z) (x y : float) :
  Same x y -> Same (Script64.run s frames x) (Script64.run s frames y).
Proof.
  revert x y. induction frames as [| frame frames IH]; intros x y H; [exact H |].
  apply IH. apply update_graphics_same. exact H.
Qed.

(** Opposite separations give forces that cancel, unless the force
    overflows. *)
Lemma balanced_forces (x : float) :
  (x - R =? - (x - L)) = true ->
  is_finite (Script64.force_left_particle s x) = true ->
  Script64.force_left_particle s x + Script64.force_right_particle s x = 0.
Proof.
  intros Hb Hf.
  unfold Script64.force_left_particle, Script64.force_right_particle in *.
  unfold L, R in *. cbv zeta in *.
  rewrite (force64_same _ _ _ _ (Same_of_eqb _ _ Hb)).
  destruct (x - Script64.PARTICLE_LEFT_POSITION s =? 0) eqn:E.
  - rewrite !force64_zero by (rewrite ?b64_eqb_zero_opp; exact E). reflexivity.
  - rewrite (force64_opp _ _ _ E). apply b64_add_opp_diag. exact Hf.
Qed.

Lemma balanced_step (frame : Z) (x : float) :
  (x - R =? - (x - L)) = true ->
  is_finite (Script64.force_left_particle s x) = true ->
  is_finite (Script64.FORCE_POSITION_GAIN s) = true ->
  Same (fst (Script64.update_graphics s frame x)) x.
Proof.
  intros Hb Hf Hg. cbn [Script64.update_graphics fst].
  rewrite (balanced_forces x Hb Hf).
  apply b64_add_zero. apply b64_mul_zero; [exact Hg | reflexivity].
Qed.

Lemma balanced_run (frames : list Z) (x : float) :
  (x - R =? - (x - L)) = true ->
  is_finite (Script64.force_left_particle s x) = true ->
  is_finite (Script64.FORCE_POSITION_GAIN s) = true ->
  Same (Script64.run s frames x) x.
Proof.
  intros Hb Hf Hg. induction frames as [| frame frames IH]; [apply Same_refl |].
  change (Script64.run s (frame :: frames) x)
    with (Script64.run s frames (fst (Script64.update_graphics s frame x))).
  apply (Same_trans _ (Script64.run s frames x)); [| exact IH].
  apply run_same. apply balanced_step; assumption.
Qed.

End Script64.

(** With the settings of the file the callback is
    [Binary64.frame_03_02], and a run from 1 is [Binary64.trajectory]. *)
Lemma update_graphics_file (frame : Z) (x : float) :
  Script64.update_graphics Script64.file_settings frame x
  = (Binary64.frame_03_02 x, (frame + 3)%Z).
Proof. reflexivity. Qed.

Lemma run_file (frames : list Z) (x : float) :
  Script64.run Script64.file_settings frames x
  = Nat.iter (List.length frames) Binary64.frame_03_02 x.
Proof.
  revert x. induction frames as [| frame frames IH]; intro x; [reflexivity |].
  change (Script64.run Script64.file_settings (frame :: frames) x)
    with (Script64.run Script64.file_settings frames (Binary64.frame_03_02 x)).
  rewrite IH. cbn [List.length]. rewrite Nat.iter_succ_r. reflexivity.
Qed.

Lemma run_file_trajectory (frames : list Z) :
  Script64.run Script64.file_settings frames 1%float
  = Binary64.trajectory (List.length frames).
Proof. apply run_file. Qed.

Section C4.

Local Open Scope float_scope.

(** C4, as the code has it, on binary64 numbers.  What the callback
    sees of the midpoint are the two separations [x - L] and [x - R]:
    when they are opposite numbers and the force of a boundary does not
    overflow (the gain being a finite number), the two boundary forces
    add up to exactly 0, and the callback leaves the position where it
    is, at this call and at every later one; so it is in the repulsive
    mode and in the attractive one, and for every decay power. *)
Theorem C4_midpoint_is_a_fixed_point
        (s : Script64.Settings) (x : float) (frames : list Z) :
  let L := Script64.PARTICLE_LEFT_POSITION s in
  let R := Script64.PARTICLE_RIGHT_POSITION s in
  (x - R =? - (x - L)) = true ->
  is_finite (Script64.force_left_particle s x) = true ->
  is_finite (Script64.FORCE_POSITION_GAIN s) = true ->
  Script64.force_left_particle s x + Script64.force_right_particle s x = 0
  /\ (forall frame, (fst (Script64.update_graphics s frame x) =? x) = true)
  /\ (Script64.run s frames x =? x) = true.
Proof.
  intros L R Hb Hf Hg.
  assert (Hx : is_nan x = false).
  { apply b64_eqb_not_nan in Hb. destruct Hb as [Hb _]. exact (b64_sub_not_nan _ _ Hb). }
  split; [apply balanced_forces; assumption |].
  split.
  - intro frame. apply Same_eqb.
    + apply balanced_step; assumption.
    + rewrite (Same_nan _ x); [exact Hx | apply balanced_step; assumption].
  - apply Same_eqb.
    + apply balanced_run; assumption.
    + rewrite (Same_nan _ x); [exact Hx | apply balanced_run; assumption].
Qed.

(** The free particle of [particles_1d_line_segment_03_02.py] placed at
    3.0, between the boundaries at 0 and 6, with the settings of the
    file, over five frames. *)
Lemma C4_midpoint_is_a_fixed_point_witness :
  let s := Script64.file_settings in
  Script64.force_left_particle s 3 + Script64.force_right_particle s 3 = 0
  /\ (forall frame, (fst (Script64.update_graphics s frame 3) =? 3) = true)
  /\ (Script64.run s (0 :: 1 :: 2 :: 3 :: 4 :: nil)%Z 3 =? 3) = true.
Proof.
  apply (C4_midpoint_is_a_fixed_point Script64.file_settings 3
           (0 :: 1 :: 2 :: 3 :: 4 :: nil)%Z); reflexivity.
Defined.

(** C4, as stated, fails on binary64 numbers.  Between boundaries at
    -2^-1074 and 2^-1074 the position 0.0 is exactly (L+R)/2, the two
    forces are infinite and opposite, their sum is a not-a-number and so
    is the position after one call.  Between boundaries at 0.1 and 0.7
    the number (L+R)/2 that binary64 arithmetic gives is not at equal
    distances from the two, and a call moves the particle. *)
Lemma C4_midpoint_is_not_at_rest :
  let tiny := Binary64.smallest_positive in
  let gain := Binary64.one_tenth in
  ((- tiny + tiny) / 2 = 0
   /\ is_nan (Binary64.guarded_force 1 (0 - - tiny) + Binary64.guarded_force 1 (0 - tiny))
      = true
   /\ is_nan (Binary64.update_graphics_03_02 (- tiny) tiny 1 gain 0) = true)
  /\ let L := 0x1.999999999999ap-4 in
     let R := 0x1.6666666666666p-1 in
     let x := (L + R) / 2 in
     (Binary64.update_graphics_03_02 L R 1 gain x =? x) = false.
Proof.
  cbv zeta. repeat split; vm_compute; reflexivity.
Qed.

End C4.

(** ** The loop of the class-based scripts on binary64 numbers *)

Lemma store64_middle (front : list Engine64.Particle) (p q : Engine64.Particle)
      (back : list Engine64.Particle) :
  Engine64.store (List.length front) q (front ++ p :: back) = front ++ q :: back.
Proof.
  induction front as [| a front IH]; simpl; [reflexivity | now rewrite IH].
Qed.

Section InnerLoop64.

Variable s : Engine64.Settings.

Lemma for_mates64_after (i j : nat) (mates : list Engine64.Particle)
      (q : Engine64.Particle) :
  (i < j)%nat -> Engine64.for_mates s i j mates q = Engine64.accumulate s mates q.
Proof.
  revert j q. induction mates as [| m mates IH]; intros j q Hij; simpl.
  - reflexivity.
  - assert (E : Nat.eqb j i = false) by (apply Nat.eqb_neq; lia).
    rewrite E. unfold Engine64.accumulate. simpl. apply IH. lia.
Qed.

Lemma for_mates64_before (i j : nat) (front back : list Engine64.Particle)
      (q : Engine64.Particle) :
  (j + List.length front <= i)%nat ->
  Engine64.for_mates s i j (front ++ back) q
  = Engine64.for_mates s i (j + List.length front) back (Engine64.accumulate s front q).
Proof.
  revert j q. induction front as [| m front IH]; intros j q Hij; simpl.
  - now rewrite Nat.add_0_r.
  - simpl in Hij.
    assert (E : Nat.eqb j i = false) by (apply Nat.eqb_neq; lia).
    rewrite E. rewrite IH by lia.
    replace (S j + List.length front)%nat with (j + S (List.length front))%nat by lia.
    reflexivity.
Qed.

(** The inner loop for the particle at the place after [front] skips
    the object at that place and no other. *)
Lemma for_mates64_middle (front back : list Engine64.Particle) (p q : Engine64.Particle) :
  Engine64.for_mates s (List.length front) 0 (front ++ p :: back) q
  = Engine64.accumulate s (front ++ back) q.
Proof.
  rewrite for_mates64_before by lia. simpl.
  rewrite Nat.eqb_refl.
  rewrite for_mates64_after by lia.
  unfold Engine64.accumulate. now rewrite fold_left_app.
Qed.

Lemma loop_body64_middle (w : Engine64.World) (poss : list float)
      (front back : list Engine64.Particle) (p : Engine64.Particle) :
  Engine64.particles w = front ++ p :: back ->
  let p' := Engine64.advance s (Engine64.particle_L w) (Engine64.particle_R w)
                             (front ++ back) p in
  Engine64.loop_body s (w, poss) (List.length front)
  = (Engine64.set_particles w (front ++ p' :: back), poss ++ Engine64.position p' :: nil).
Proof.
  intros Hw p'. unfold Engine64.loop_body.
  rewrite Hw, nth_error_middle, for_mates64_middle, store64_middle.
  reflexivity.
Qed.

Lemma loop64_sweep (todo front : list Engine64.Particle) (w : Engine64.World)
      (poss : list float) :
  Engine64.particles w = front ++ todo ->
  let todo' := Engine64.sweep s (Engine64.particle_L w) (Engine64.particle_R w) front todo in
  fold_left (Engine64.loop_body s) (seq (List.length front) (List.length todo)) (w, poss)
  = (Engine64.set_particles w (front ++ todo'), poss ++ map Engine64.position todo').
Proof.
  revert front w poss. induction todo as [| p rest IH]; intros front w poss Hw;
    cbn [List.length seq fold_left Engine64.sweep map].
  - rewrite !app_nil_r. rewrite app_nil_r in Hw. rewrite <- Hw.
    destruct w; reflexivity.
  - rewrite (loop_body64_middle w poss front rest p Hw).
    set (p' := Engine64.advance s (Engine64.particle_L w) (Engine64.particle_R w)
                                (front ++ rest) p).
    set (w1 := Engine64.set_particles w (front ++ p' :: rest)).
    assert (Hw1 : Engine64.particles w1 = (front ++ p' :: nil) ++ rest)
      by (unfold w1; simpl; now rewrite <- app_assoc).
    specialize (IH (front ++ p' :: nil) w1 (poss ++ Engine64.position p' :: nil) Hw1).
    cbv zeta in IH. rewrite length_app in IH. cbn [List.length] in IH.
    rewrite Nat.add_1_r in IH. rewrite IH.
    unfold w1, Engine64.set_particles. cbn [Engine64.particle_L Engine64.particle_R].
    fold p'. rewrite <- !app_assoc. reflexivity.
Qed.

(** The loop of the callback is the sweep of the list. *)
Lemma simulate64_sweep (w : Engine64.World) :
  let ps' := Engine64.sweep s (Engine64.particle_L w) (Engine64.particle_R w) nil
                            (Engine64.particles w) in
  Engine64.simulate s w = (Engine64.set_particles w ps', map Engine64.position ps').
Proof.
  intro ps'. unfold Engine64.simulate.
  exact (loop64_sweep (Engine64.particles w) nil w nil eq_refl).
Qed.

Lemma tick64_particles (w : Engine64.World) :
  Engine64.particles (Engine64.tick s w)
  = Engine64.sweep s (Engine64.particle_L w) (Engine64.particle_R w) nil
                   (Engine64.particles w).
Proof. unfold Engine64.tick. rewrite simulate64_sweep. reflexivity. Qed.

Lemma tick64_particle_L (w : Engine64.World) :
  Engine64.particle_L (Engine64.tick s w) = Engine64.particle_L w.
Proof. unfold Engine64.tick. rewrite simulate64_sweep. reflexivity. Qed.

Lemma tick64_particle_R (w : Engine64.World) :
  Engine64.particle_R (Engine64.tick s w) = Engine64.particle_R w.
Proof. unfold Engine64.tick. rewrite simulate64_sweep. reflexivity. Qed.

Lemma ticks64_succ (n : nat) (w : Engine64.World) :
  Engine64.ticks s (S n) w = Engine64.tick s (Engine64.ticks s n w).
Proof. reflexivity. Qed.

Lemma ticks64_particle_L (n : nat) (w : Engine64.World) :
  Engine64.particle_L (Engine64.ticks s n w) = Engine64.particle_L w.
Proof.
  induction n as [| n IH]; [reflexivity |].
  now rewrite ticks64_succ, tick64_particle_L.
Qed.

Lemma ticks64_particle_R (n : nat) (w : Engine64.World) :
  Engine64.particle_R (Engine64.ticks s n w) = Engine64.particle_R w.
Proof.
  induction n as [| n IH]; [reflexivity |].
  now rewrite ticks64_succ, tick64_particle_R.
Qed.

Lemma accumulate64_position (mates : list Engine64.Particle) (q : Engine64.Particle) :
  Engine64.position (Engine64.accumulate s mates q) = Engine64.position q.
Proof.
  revert q. unfold Engine64.accumulate.
  induction mates as [| m mates IH]; intro q; simpl; [reflexivity |].
  now rewrite IH.
Qed.

Lemma accumulate64_app (l1 l2 : list Engine64.Particle) (q : Engine64.Particle) :
  Engine64.accumulate s (l1 ++ l2) q
  = Engine64.accumulate s l2 (Engine64.accumulate s l1 q).
Proof. unfold Engine64.accumulate. apply fold_left_app. Qed.

End InnerLoop64.

(** ** Two runs whose positions are related

    A relation between numbers that the arithmetic of the loop
    preserves is preserved by the sweep, by a tick and by any number of
    ticks.  The boundary particles of the two worlds enter through the
    force they exert together. *)

Section Related.

Local Open Scope float_scope.

Variable s : Engine64.Settings.
Variable Rel : float -> float -> Prop.

Let force := Engine64.guarded_force (Engine64.direction s)
                                    (Engine64.FORCE_DECAY_POWER s).

Hypothesis Rel_add : forall a a' b b', Rel a a' -> Rel b b' -> Rel (a + b) (a' + b').
Hypothesis Rel_sub : forall a a' b b', Rel a a' -> Rel b b' -> Rel (a - b) (a' - b').
Hypothesis Rel_gain :
  forall a a', Rel a a' ->
               Rel (Engine64.FORCE_POSITION_GAIN s * a) (Engine64.FORCE_POSITION_GAIN s * a').
Hypothesis Rel_force : forall dx dx', Rel dx dx' -> Rel (force dx) (force dx').

Variables L R L' R' : Engine64.Particle.

Hypothesis Rel_boundaries :
  forall x x', Rel x x' ->
    Rel (0 + force (x - Engine64.position L) + force (x - Engine64.position R))
        (0 + force (x' - Engine64.position L') + force (x' - Engine64.position R')).

Lemma compute_force_related (p q m m' : Engine64.Particle) :
  (related Rel) p q -> (related_position Rel) m m' ->
  (related Rel)
    (Engine64.compute_force p m (Engine64.direction s) (Engine64.FORCE_DECAY_POWER s))
    (Engine64.compute_force q m' (Engine64.direction s) (Engine64.FORCE_DECAY_POWER s)).
Proof.
  intros [Hp Ht] Hm. split; [exact Hp |].
  cbn [Engine64.compute_force Engine64.set_total_force Engine64.total_force].
  apply Rel_add; [exact Ht |]. apply Rel_force, Rel_sub; assumption.
Qed.

Lemma accumulate_related (ms ms' : list Engine64.Particle) (p q : Engine64.Particle) :
  Forall2 (related_position Rel) ms ms' -> (related Rel) p q ->
  (related Rel) (Engine64.accumulate s ms p) (Engine64.accumulate s ms' q).
Proof.
  intro H. revert p q. induction H as [| m m' ms ms' Hm _ IH]; intros p q Hpq.
  - exact Hpq.
  - apply IH. apply compute_force_related; assumption.
Qed.

Lemma move_related (p q : Engine64.Particle) :
  (related Rel) p q ->
  (related Rel) (Engine64.move p (Engine64.FORCE_POSITION_GAIN s))
          (Engine64.move q (Engine64.FORCE_POSITION_GAIN s)).
Proof.
  intros [Hp Ht]. split; [| exact Ht].
  cbn [Engine64.move Engine64.set_position Engine64.position].
  apply Rel_add; [exact Hp | apply Rel_gain, Ht].
Qed.

(** One turn of the outer loop. *)
Lemma advance_related (ms ms' : list Engine64.Particle) (p q : Engine64.Particle) :
  Forall2 (related_position Rel) ms ms' -> (related_position Rel) p q ->
  (related Rel) (Engine64.advance s L R ms p) (Engine64.advance s L' R' ms' q).
Proof.
  intros Hms Hpq. unfold Engine64.advance.
  apply move_related, accumulate_related; [exact Hms |].
  split; [exact Hpq |]. apply Rel_boundaries. exact Hpq.
Qed.

Lemma related_weaken (ps qs : list Engine64.Particle) :
  Forall2 (related Rel) ps qs -> Forall2 (related_position Rel) ps qs.
Proof.
  intro H. induction H as [| p q ps qs [Hp _] _ IH]; constructor; assumption.
Qed.

Lemma sweep_related (todo todo' front front' : list Engine64.Particle) :
  Forall2 (related_position Rel) front front' ->
  Forall2 (related_position Rel) todo todo' ->
  Forall2 (related Rel) (Engine64.sweep s L R front todo) (Engine64.sweep s L' R' front' todo').
Proof.
  intros Hf Ht. revert front front' Hf.
  induction Ht as [| p q todo todo' Hpq Ht IH]; intros front front' Hf;
    cbn [Engine64.sweep]; constructor.
  - apply advance_related; [apply Forall2_app |]; assumption.
  - apply IH. apply Forall2_app; [exact Hf |].
    constructor; [| constructor].
    apply advance_related; [apply Forall2_app |]; assumption.
Qed.

End Related.

Section RelatedWorlds.

Local Open Scope float_scope.

Variable s : Engine64.Settings.
Variable Rel : float -> float -> Prop.

Let force := Engine64.guarded_force (Engine64.direction s)
                                    (Engine64.FORCE_DECAY_POWER s).

Hypothesis Rel_add : forall a a' b b', Rel a a' -> Rel b b' -> Rel (a + b) (a' + b').
Hypothesis Rel_sub : forall a a' b b', Rel a a' -> Rel b b' -> Rel (a - b) (a' - b').
Hypothesis Rel_gain :
  forall a a', Rel a a' ->
               Rel (Engine64.FORCE_POSITION_GAIN s * a) (Engine64.FORCE_POSITION_GAIN s * a').
Hypothesis Rel_force : forall dx dx', Rel dx dx' -> Rel (force dx) (force dx').

Variables w w' : Engine64.World.

Hypothesis Rel_boundaries :
  forall x x', Rel x x' ->
    Rel (0 + force (x - Engine64.position_L w) + force (x - Engine64.position_R w))
        (0 + force (x' - Engine64.position_L w') + force (x' - Engine64.position_R w')).

Lemma ticks_related (n : nat) :
  Forall2 (related_position Rel) (Engine64.particles w) (Engine64.particles w') ->
  Forall2 (related_position Rel)
          (Engine64.particles (Engine64.ticks s n w))
          (Engine64.particles (Engine64.ticks s n w')).
Proof.
  intro H. induction n as [| n IH]; [exact H |].
  rewrite !ticks64_succ, !tick64_particles, !ticks64_particle_L, !ticks64_particle_R.
  apply (related_weaken Rel).
  apply (sweep_related s Rel Rel_add Rel_sub Rel_gain Rel_force _ _ _ _ Rel_boundaries).
  - constructor.
  - exact IH.
Qed.

End RelatedWorlds.

(** ** Symmetric configurations *)

(** C7, as stated, fails: two free particles at 2 and 4 between
    boundary particles at 0 and 6 are placed symmetrically around the
    midpoint 3, and after one tick (settings of the files) they are at
    797/400 and 1287191/321200, which is not symmetric: the second
    particle is moved against the new position of the first. *)
Lemma C7_symmetry_is_lost :
  Engine.symmetric Engine.world_symmetric_pair
  /\ Engine.positions (Engine.tick Engine.file_settings Engine.world_symmetric_pair)
     = Q2Qc (797 # 400) :: Q2Qc (1287191 # 321200) :: nil
  /\ ~ Engine.symmetric (Engine.tick Engine.file_settings Engine.world_symmetric_pair).
Proof.
  unfold Engine.symmetric. split; [| split].
  - apply Qc_list_eq. vm_compute. reflexivity.
  - apply Qc_list_eq. vm_compute. reflexivity.
  - intro H. apply (f_equal (map this)) in H. vm_compute in H. discriminate H.
Qed.

(** The same two particles on binary64 numbers: placed symmetrically
    before the tick, not after it. *)
Lemma symmetry_is_lost_on_binary64 :
  Engine64.symmetric Engine64.world_symmetric_pair = true
  /\ Engine64.symmetric (Engine64.tick Engine64.file_settings Engine64.world_symmetric_pair)
     = false.
Proof. split; vm_compute; reflexivity. Qed.

(** ** Reflection through the origin *)

Section Opposite.

Local Open Scope float_scope.

Lemma Opposite_zero : Opposite 0 0.
Proof. unfold Opposite, Same. rewrite opp_spec, SF_zero. exact I. Qed.

Lemma Opposite_opp a : Opposite a (- a).
Proof. apply Same_refl. Qed.

Lemma Opposite_add a a' b b' :
  Opposite a a' -> Opposite b b' -> Opposite (a + b) (a' + b').
Proof.
  unfold Opposite. intros Ha Hb.
  eapply Same_trans; [apply Same_add; eassumption | apply b64_add_opp].
Qed.

Lemma Opposite_sub a a' b b' :
  Opposite a a' -> Opposite b b' -> Opposite (a - b) (a' - b').
Proof.
  unfold Opposite. intros Ha Hb.
  eapply Same_trans; [apply Same_sub; eassumption | apply b64_sub_opp].
Qed.

Lemma Opposite_mul g a a' : Opposite a a' -> Opposite (g * a) (g * a').
Proof.
  unfold Opposite. intro H. rewrite <- b64_mul_opp_r. apply Same_mul. exact H.
Qed.

Variable s : Engine64.Settings.

Let force := Engine64.guarded_force (Engine64.direction s)
                                    (Engine64.FORCE_DECAY_POWER s).

Lemma Opposite_force dx dx' : Opposite dx dx' -> Opposite (force dx) (force dx').
Proof.
  unfold Opposite, force. intro H.
  rewrite (force64_same _ _ _ _ H). apply force64_odd.
Qed.

(** The boundary particles of the second world at the opposite
    positions of those of the first. *)
Lemma Opposite_boundaries (L R L' R' : Engine64.Particle) :
  Opposite (Engine64.position L) (Engine64.position L') ->
  Opposite (Engine64.position R) (Engine64.position R') ->
  forall x x', Opposite x x' ->
    Opposite (0 + force (x - Engine64.position L) + force (x - Engine64.position R))
             (0 + force (x' - Engine64.position L') + force (x' - Engine64.position R')).
Proof.
  intros HL HR x x' H.
  repeat apply Opposite_add; try apply Opposite_zero;
    apply Opposite_force, Opposite_sub; assumption.
Qed.

(** The boundary particles of the second world in exchanged roles: its
    left one opposite to the right one of the first world, its right one
    opposite to the left one.  The two boundary forces are then added in
    the other order, and the addition of binary64 numbers is
    commutative. *)
Lemma Opposite_boundaries_exchanged (L R L' R' : Engine64.Particle) :
  Opposite (Engine64.position R) (Engine64.position L') ->
  Opposite (Engine64.position L) (Engine64.position R') ->
  forall x x', Opposite x x' ->
    Opposite (0 + force (x - Engine64.position L) + force (x - Engine64.position R))
             (0 + force (x' - Engine64.position L') + force (x' - Engine64.position R')).
Proof.
  intros HL HR x x' H.
  set (a := force (x - Engine64.position L)).
  set (b := force (x - Engine64.position R)).
  set (b' := force (x' - Engine64.position L')).
  set (a' := force (x' - Engine64.position R')).
  assert (Ha : Opposite a a') by (apply Opposite_force, Opposite_sub; assumption).
  assert (Hb : Opposite b b') by (apply Opposite_force, Opposite_sub; assumption).
  unfold Opposite.
  apply (Same_trans _ (a' + b')).
  - rewrite (b64_add_comm a' b'). apply Same_add; [apply b64_zero_add | apply Same_refl].
  - apply (Same_trans _ (- (a + b))).
    + exact (Opposite_add _ _ _ _ Ha Hb).
    + apply Same_opp, Same_add; [apply Same_sym, b64_zero_add | apply Same_refl].
Qed.

Lemma ticks_opposite (n : nat) (w w' : Engine64.World) :
  (Opposite (Engine64.position_L w) (Engine64.position_L w')
   /\ Opposite (Engine64.position_R w) (Engine64.position_R w'))
  \/ (Opposite (Engine64.position_R w) (Engine64.position_L w')
      /\ Opposite (Engine64.position_L w) (Engine64.position_R w')) ->
  Forall2 (related_position Opposite) (Engine64.particles w) (Engine64.particles w') ->
  Forall2 (related_position Opposite)
          (Engine64.particles (Engine64.ticks s n w))
          (Engine64.particles (Engine64.ticks s n w')).
Proof.
  intros Hb.
  apply (ticks_related s Opposite Opposite_add Opposite_sub
           (Opposite_mul (Engine64.FORCE_POSITION_GAIN s)) Opposite_force).
  destruct Hb as [[HL HR] | [HL HR]].
  - apply Opposite_boundaries; assumption.
  - apply Opposite_boundaries_exchanged; assumption.
Qed.

End Opposite.

Section Mirror64.

Local Open Scope float_scope.

Lemma b64_zero_sub x : Same (0 - x) (- x).
Proof.
  unfold Same. rewrite sub_spec, opp_spec, SF_zero.
  destruct (Prim2SF x) as [sx | sx | | sx m e]; try reflexivity.
  destruct sx; exact I.
Qed.

Lemma same_numbers_Forall2 (l1 l2 : list float) :
  Forall2 Same l1 l2 -> Binary64.same_numbers l1 l2 = true.
Proof.
  intro H. induction H as [| a b l1 l2 Hab _ IH]; [reflexivity |].
  cbn [Binary64.same_numbers]. rewrite IH, andb_true_r.
  apply same_number_Same. exact Hab.
Qed.

(** Reflecting the whole configuration through the origin and running
    [n] ticks gives the opposite positions of the run from the original
    configuration, for every setting and every world. *)
Lemma reflection_through_the_origin
      (s : Engine64.Settings) (n : nat) (w : Engine64.World) :
  Binary64.same_numbers
    (Engine64.positions (Engine64.ticks s n (Engine64.negate w)))
    (map opp (Engine64.positions (Engine64.ticks s n w))) = true.
Proof.
  apply same_numbers_Forall2.
  assert (H : Forall2 (related_position Opposite)
                      (Engine64.particles (Engine64.ticks s n w))
                      (Engine64.particles (Engine64.ticks s n (Engine64.negate w)))).
  { apply ticks_opposite.
    - left. split; apply Opposite_opp.
    - unfold Engine64.negate. cbn [Engine64.particles].
      induction (Engine64.particles w) as [| p ps IH]; constructor;
        [apply Opposite_opp | exact IH]. }
  unfold Engine64.positions. induction H as [| p q ps qs Hpq _ IH]; constructor;
    [exact Hpq | exact IH].
Qed.

(** For a segment with its midpoint at 0.0 the mirror image of [x] is
    its opposite. *)
Lemma mirror_centred (w : Engine64.World) (x : float) :
  is_finite (Engine64.position_L w) = true ->
  Engine64.position_R w = - Engine64.position_L w ->
  Same (Engine64.mirror w x) (- x).
Proof.
  intros Hf Hc. unfold Engine64.mirror. rewrite Hc, (b64_add_opp_diag _ Hf).
  apply b64_zero_sub.
Qed.

(** C7, as the code has it.  For a segment whose midpoint is 0.0 (the
    boundary particles at opposite finite positions), moving every free
    particle to its mirror image about the midpoint, each keeping its
    place in the list, and running [n] ticks gives the mirror images of
    the positions that [n] ticks give from the original world. *)
Theorem C7_mirror_invariance (s : Engine64.Settings) (n : nat) (w : Engine64.World) :
  is_finite (Engine64.position_L w) = true ->
  Engine64.position_R w = - Engine64.position_L w ->
  Binary64.same_numbers
    (Engine64.positions (Engine64.ticks s n (Engine64.reflect w)))
    (map (Engine64.mirror w) (Engine64.positions (Engine64.ticks s n w))) = true.
Proof.
  intros Hf Hc. apply same_numbers_Forall2.
  assert (H : Forall2 (related_position Opposite)
                      (Engine64.particles (Engine64.ticks s n w))
                      (Engine64.particles (Engine64.ticks s n (Engine64.reflect w)))).
  { apply ticks_opposite.
    - right. unfold Engine64.reflect, Engine64.position_L, Engine64.position_R.
      cbn [Engine64.set_particles Engine64.particle_L Engine64.particle_R].
      fold (Engine64.position_L w). fold (Engine64.position_R w). split.
      + unfold Opposite. rewrite Hc, b64_opp_involutive. apply Same_refl.
      + unfold Opposite. rewrite Hc. apply Same_refl.
    - unfold Engine64.reflect. cbn [Engine64.set_particles Engine64.particles].
      induction (Engine64.particles w) as [| p ps IH]; constructor; [| exact IH].
      unfold related_position, Opposite. cbn [Engine64.set_position Engine64.position].
      apply mirror_centred; assumption. }
  unfold Engine64.positions. induction H as [| p q ps qs Hpq _ IH]; constructor;
    [| exact IH].
  apply (Same_trans _ (- Engine64.position p)); [exact Hpq |].
  apply Same_sym, mirror_centred; assumption.
Qed.

(** Five free particles between boundary particles at -3.0 and 3.0,
    settings of the files, three ticks. *)
Lemma C7_mirror_invariance_witness :
  Binary64.same_numbers
    (Engine64.positions
       (Engine64.ticks Engine64.file_settings 3 (Engine64.reflect Engine64.world_centred)))
    (map (Engine64.mirror Engine64.world_centred)
         (Engine64.positions (Engine64.ticks Engine64.file_settings 3 Engine64.world_centred)))
  = true.
Proof.
  apply (C7_mirror_invariance Engine64.file_settings 3 Engine64.world_centred);
    reflexivity.
Defined.

(** With the midpoint elsewhere the mirror image [L + R - x] is rounded,
    and so is every step after it.  On the worlds of the two files
    (boundaries at 0 and 6) every mirror image [6 - x] of an initial
    position is exact, and yet the run from the mirrored particles and
    the mirror image of the run differ: after one tick for the five
    particles of [particles_1d_line_segment_n_02.py.py], after three
    ticks for the two of [particles_1d_line_segment_04_02.py.py]. *)
Lemma mirror_images_are_rounded :
  let s := Engine64.file_settings in
  (let w := Engine64.world_n_02 in
   Engine64.positions (Engine64.reflect w) = 5 :: 4.75 :: 4.5 :: 4.25 :: 4 :: nil
   /\ Binary64.same_numbers
        (Engine64.positions (Engine64.ticks s 1 (Engine64.reflect w)))
        (map (Engine64.mirror w) (Engine64.positions (Engine64.ticks s 1 w))) = false)
  /\ (let w := Engine64.world_04_02 in
      Engine64.positions (Engine64.reflect w) = 5 :: 4 :: nil
      /\ Binary64.same_numbers
           (Engine64.positions (Engine64.ticks s 3 (Engine64.reflect w)))
           (map (Engine64.mirror w) (Engine64.positions (Engine64.ticks s 3 w))) = false).
Proof.
  cbv zeta. repeat split; vm_compute; reflexivity.
Qed.

End Mirror64.

(** ** The variant that does not exclude the particle itself *)

Section WithSelf64.

Local Open Scope float_scope.

Variable s : Engine64.Settings.

Lemma for_mates_with_self64_accumulate
      (mates : list Engine64.Particle) (q : Engine64.Particle) :
  Engine64.for_mates_with_self s mates q = Engine64.accumulate s mates q.
Proof.
  revert q. induction mates as [| m mates IH]; intro q; [reflexivity |].
  simpl. rewrite IH. reflexivity.
Qed.

Lemma loop_body_with_self64_middle (w : Engine64.World) (poss : list float)
      (front back : list Engine64.Particle) (p : Engine64.Particle) :
  Engine64.particles w = front ++ p :: back ->
  let p' := Engine64.advance_with_self s (Engine64.particle_L w) (Engine64.particle_R w)
                                       front back p in
  Engine64.loop_body_with_self s (w, poss) (List.length front)
  = (Engine64.set_particles w (front ++ p' :: back), poss ++ Engine64.position p' :: nil).
Proof.
  intros Hw p'. unfold Engine64.loop_body_with_self.
  rewrite Hw, nth_error_middle, !store64_middle, for_mates_with_self64_accumulate.
  reflexivity.
Qed.

Lemma loop_with_self64_sweep (todo front : list Engine64.Particle) (w : Engine64.World)
      (poss : list float) :
  Engine64.particles w = front ++ todo ->
  let todo' := Engine64.sweep_with_self s (Engine64.particle_L w) (Engine64.particle_R w)
                                        front todo in
  fold_left (Engine64.loop_body_with_self s)
            (seq (List.length front) (List.length todo)) (w, poss)
  = (Engine64.set_particles w (front ++ todo'), poss ++ map Engine64.position todo').
Proof.
  revert front w poss. induction todo as [| p rest IH]; intros front w poss Hw;
    cbn [List.length seq fold_left Engine64.sweep_with_self map].
  - rewrite !app_nil_r. rewrite app_nil_r in Hw. rewrite <- Hw.
    destruct w; reflexivity.
  - rewrite (loop_body_with_self64_middle w poss front rest p Hw).
    set (p' := Engine64.advance_with_self s (Engine64.particle_L w) (Engine64.particle_R w)
                                          front rest p).
    set (w1 := Engine64.set_particles w (front ++ p' :: rest)).
    assert (Hw1 : Engine64.particles w1 = (front ++ p' :: nil) ++ rest)
      by (unfold w1; simpl; now rewrite <- app_assoc).
    specialize (IH (front ++ p' :: nil) w1 (poss ++ Engine64.position p' :: nil) Hw1).
    cbv zeta in IH. rewrite length_app in IH. cbn [List.length] in IH.
    rewrite Nat.add_1_r in IH. rewrite IH.
    unfold w1, Engine64.set_particles. cbn [Engine64.particle_L Engine64.particle_R].
    fold p'. rewrite <- !app_assoc. reflexivity.
Qed.

Lemma simulate_with_self64_sweep (w : Engine64.World) :
  let ps' := Engine64.sweep_with_self s (Engine64.particle_L w) (Engine64.particle_R w) nil
                                      (Engine64.particles w) in
  Engine64.simulate_with_self s w
  = (Engine64.set_particles w ps', map Engine64.position ps').
Proof.
  intro ps'. unfold Engine64.simulate_with_self.
  exact (loop_with_self64_sweep (Engine64.particles w) nil w nil eq_refl).
Qed.

Lemma add_not_negative_zero (a b : float) :
  not_negative_zero a -> not_negative_zero (a + b).
Proof.
  unfold not_negative_zero. intros Ha H. apply Ha.
  rewrite add_spec in H.
  exact (SFadd_negative_zero _ _ (Prim2SF_valid a) (Prim2SF_valid b) H).
Qed.

Lemma zero_not_negative_zero : not_negative_zero 0.
Proof. unfold not_negative_zero. rewrite SF_zero. discriminate. Qed.

(** [total_force += 0] leaves [total_force] as it is. *)
Lemma b64_add_zero_r (a : float) : not_negative_zero a -> a + 0 = a.
Proof.
  unfold not_negative_zero. intro Ha. apply Prim2SF_inj. rewrite add_spec, SF_zero.
  destruct (Prim2SF a) as [sa | sa | | sa ma ea]; try reflexivity.
  destruct sa; [now elim Ha | reflexivity].
Qed.

Lemma compute_force64_total (p m : Engine64.Particle) (d : float) (pw : float -> float) :
  not_negative_zero (Engine64.total_force p) ->
  not_negative_zero (Engine64.total_force (Engine64.compute_force p m d pw)).
Proof. apply add_not_negative_zero. Qed.

Lemma accumulate64_total (mates : list Engine64.Particle) (q : Engine64.Particle) :
  not_negative_zero (Engine64.total_force q) ->
  not_negative_zero (Engine64.total_force (Engine64.accumulate s mates q)).
Proof.
  revert q. unfold Engine64.accumulate.
  induction mates as [| m mates IH]; intros q H; [exact H |].
  apply IH, compute_force64_total, H.
Qed.

(** The particle's contribution to itself: at a finite position the
    separation is [x - x = 0.0], the guard takes the zero branch, and
    [total_force += 0] changes nothing. *)
Lemma compute_force_self64 (a q : Engine64.Particle) (d : float) (pw : float -> float) :
  Engine64.position a = Engine64.position q ->
  is_finite (Engine64.position q) = true ->
  not_negative_zero (Engine64.total_force a) ->
  Engine64.compute_force a q d pw = a.
Proof.
  intros Hx Hf Ht. unfold Engine64.compute_force.
  rewrite Hx, (b64_sub_diag _ Hf), force64_zero by reflexivity.
  rewrite (b64_add_zero_r _ Ht). destruct a; reflexivity.
Qed.

(** One turn of the variant is one turn of the loop. *)
Lemma advance_with_self_eq (L R : Engine64.Particle)
      (front back : list Engine64.Particle) (p : Engine64.Particle) :
  is_finite (Engine64.position p) = true ->
  Engine64.advance_with_self s L R front back p
  = Engine64.advance s L R (front ++ back) p.
Proof.
  intro Hf. unfold Engine64.advance_with_self, Engine64.advance.
  set (q := Engine64.compute_force _ R _ _).
  assert (Hq : not_negative_zero (Engine64.total_force q)).
  { unfold q. apply compute_force64_total, compute_force64_total.
    exact zero_not_negative_zero. }
  f_equal. rewrite !accumulate64_app.
  change (Engine64.accumulate s (q :: back) (Engine64.accumulate s front q))
    with (Engine64.accumulate s back
            (Engine64.compute_force (Engine64.accumulate s front q) q
               (Engine64.direction s) (Engine64.FORCE_DECAY_POWER s))).
  rewrite compute_force_self64; [reflexivity | | exact Hf | ].
  - apply accumulate64_position.
  - apply accumulate64_total, Hq.
Qed.

Lemma sweep_with_self_eq (L R : Engine64.Particle)
      (todo front : list Engine64.Particle) :
  forallb (fun p => is_finite (Engine64.position p)) todo = true ->
  Engine64.sweep_with_self s L R front todo = Engine64.sweep s L R front todo.
Proof.
  revert front. induction todo as [| p rest IH]; intros front Hfin;
    cbn [Engine64.sweep_with_self Engine64.sweep]; [reflexivity |].
  cbn [forallb] in Hfin. apply andb_true_iff in Hfin. destruct Hfin as [Hp Hrest].
  rewrite (advance_with_self_eq L R front rest p Hp), (IH _ Hrest). reflexivity.
Qed.

End WithSelf64.

Section C10.

Local Open Scope float_scope.

(** C10, as the code has it.  When every free particle is at a finite
    position at the start of the tick, the loop without the test
    [if not mate_particle == particle] computes the same world and the
    same list [poss] as the loop of the callback, bit for bit: the
    particle meets itself with [dx = x - x = 0.0], takes the zero branch
    and adds 0 to a force that is not the negative zero. *)
Theorem C10_self_exclusion_is_redundant (s : Engine64.Settings) (w : Engine64.World) :
  forallb (fun p => is_finite (Engine64.position p)) (Engine64.particles w) = true ->
  Engine64.simulate_with_self s w = Engine64.simulate s w
  /\ Engine64.tick_with_self s w = Engine64.tick s w.
Proof.
  intro Hfin.
  assert (E : Engine64.simulate_with_self s w = Engine64.simulate s w).
  { rewrite simulate_with_self64_sweep, simulate64_sweep.
    rewrite (sweep_with_self_eq s _ _ _ nil Hfin). reflexivity. }
  split; [exact E |].
  unfold Engine64.tick_with_self, Engine64.tick. rewrite E. reflexivity.
Qed.

(** The five free particles of [particles_1d_line_segment_n_02.py.py]
    in the first tick. *)
Lemma C10_self_exclusion_is_redundant_witness :
  Engine64.simulate_with_self Engine64.file_settings Engine64.world_n_02
  = Engine64.simulate Engine64.file_settings Engine64.world_n_02
  /\ Engine64.tick_with_self Engine64.file_settings Engine64.world_n_02
     = Engine64.tick Engine64.file_settings Engine64.world_n_02.
Proof.
  apply (C10_self_exclusion_is_redundant Engine64.file_settings Engine64.world_n_02).
  reflexivity.
Defined.

(** C10, as stated, fails on binary64 numbers: for a particle at
    infinity the separation from itself is [infinity - infinity], a
    not-a-number, which is not [== 0]; the variant divides and moves the
    particle to a not-a-number (and the particle behind it in the list,
    which meets it there), the callback leaves it at infinity.  A
    particle gets there from a finite position: in the world of
    [particles_1d_line_segment_04_02.py.py] with the first particle at
    2^-1074, next to the boundary at 0, the first tick moves it to
    infinity in both loops, and the second tick separates the two. *)
Lemma C10_self_term_at_infinity :
  let s := Engine64.file_settings in
  (let w := Engine64.set_particles Engine64.world_04_02
              (Engine64.Particle_init infinity "1"%string "ro"%string
               :: Engine64.Particle_init 2 "2"%string "go"%string :: nil) in
   (infinity - infinity =? 0) = false
   /\ map is_nan (Engine64.positions (Engine64.tick_with_self s w)) = true :: true :: nil
   /\ map is_nan (Engine64.positions (Engine64.tick s w)) = false :: false :: nil)
  /\ (let w := Engine64.set_particles Engine64.world_04_02
                 (Engine64.Particle_init Binary64.smallest_positive "1"%string "ro"%string
                  :: Engine64.Particle_init 2 "2"%string "go"%string :: nil) in
      forallb (fun p => is_finite (Engine64.position p)) (Engine64.particles w) = true
      /\ map is_finite (Engine64.positions (Engine64.tick s w)) = false :: true :: nil
      /\ map is_nan
           (Engine64.positions (Engine64.tick_with_self s (Engine64.tick_with_self s w)))
         = true :: true :: nil
      /\ map is_nan (Engine64.positions (Engine64.tick s (Engine64.tick s w)))
         = false :: false :: nil).
Proof.
  cbv zeta. repeat split; vm_compute; reflexivity.
Qed.

End C10.

(** ** No division by zero *)

(** C6, as stated, fails on binary64 floats.  Two finite positions at
    the nonzero separation 2^-1074 pass the guard [if not dx == 0], and
    the division [1.0 / 2^-1074] overflows: the contribution is infinite,
    and the callback of [particles_1d_line_segment_03_02.py], with the
    settings of the file, moves a free particle at 2^-1074 to infinity.
    A free particle at 0 between boundary particles at -2^-1074 and
    2^-1074 accumulates [infinity + (-infinity)], a not-a-number, and is
    moved to a not-a-number. *)
Lemma C6_binary64_overflow :
  let tiny := Binary64.smallest_positive in
  let self := {| Binary64.position := tiny; Binary64.total_force := 0 |} in
  let mate := {| Binary64.position := 0; Binary64.total_force := 0 |} in
  let L := {| Binary64.position := (- tiny)%float; Binary64.total_force := 0 |} in
  let R := {| Binary64.position := tiny; Binary64.total_force := 0 |} in
  is_finite tiny = true
  /\ (Binary64.position self - Binary64.position mate =? 0)%float = false
  /\ Binary64.total_force (Binary64.compute_force self mate 1) = infinity
  /\ Binary64.frame_03_02 tiny = infinity
  /\ is_nan (Binary64.total_force (Binary64.tick_single L R mate 1 Binary64.one_tenth))
     = true
  /\ is_nan (Binary64.position (Binary64.tick_single L R mate 1 Binary64.one_tenth))
     = true.
Proof.
  cbv zeta. repeat split; vm_compute; reflexivity.
Qed.

Section CheckedLoop.

Local Open Scope float_scope.

Variable s : Engine64.Settings.

(** The power of a base that is not zero is not zero: so it is for
    [FORCE_DECAY_POWER = 1]. *)
Hypothesis power_nonzero :
  forall y, (y =? 0) = false -> (Engine64.FORCE_DECAY_POWER s y =? 0) = false.

Lemma guarded_force_checked64_total (d dx : float) :
  Engine64.guarded_force_checked d (Engine64.FORCE_DECAY_POWER s) dx
  = Some (Engine64.guarded_force d (Engine64.FORCE_DECAY_POWER s) dx).
Proof.
  unfold Engine64.guarded_force_checked, Engine64.guarded_force, Binary64.checked_div.
  destruct (dx =? 0) eqn:E; [reflexivity |].
  rewrite power_nonzero; [reflexivity |].
  unfold Binary64.np_abs. rewrite b64_abs_eqb_zero. exact E.
Qed.

Lemma compute_force_checked64_total (self mate : Engine64.Particle) (d : float) :
  Engine64.compute_force_checked self mate d (Engine64.FORCE_DECAY_POWER s)
  = Some (Engine64.compute_force self mate d (Engine64.FORCE_DECAY_POWER s)).
Proof.
  unfold Engine64.compute_force_checked, Engine64.compute_force.
  now rewrite guarded_force_checked64_total.
Qed.

Lemma for_mates_checked64_total (i j : nat) (mates : list Engine64.Particle)
      (q : Engine64.Particle) :
  Engine64.for_mates_checked s i j mates q = Some (Engine64.for_mates s i j mates q).
Proof.
  revert j q. induction mates as [| m mates IH]; intros j q; simpl; [reflexivity |].
  destruct (Nat.eqb j i); [apply IH |].
  rewrite compute_force_checked64_total. apply IH.
Qed.

Lemma loop_body_checked64_total (st : Engine64.World * list float) (i : nat) :
  Engine64.loop_body_checked s (Some st) i = Some (Engine64.loop_body s st i).
Proof.
  destruct st as [w poss]. unfold Engine64.loop_body_checked, Engine64.loop_body.
  destruct (nth_error (Engine64.particles w) i) as [p |]; [| reflexivity].
  rewrite !compute_force_checked64_total, for_mates_checked64_total. reflexivity.
Qed.

Lemma simulate_checked64_total (w : Engine64.World) :
  Engine64.simulate_checked s w = Some (Engine64.simulate s w).
Proof.
  unfold Engine64.simulate_checked, Engine64.simulate.
  generalize (seq 0 (List.length (Engine64.particles w))) as places.
  generalize (w, @nil float) as st.
  intros st places. revert st.
  induction places as [| i places IH]; intro st; [reflexivity |].
  cbn [fold_left]. rewrite loop_body_checked64_total. apply IH.
Qed.

End CheckedLoop.

Lemma update_graphics_checked64_total (s : Script64.Settings) (frame : Z) (x : float) :
  (forall y, (y =? 0)%float = false ->
             (Script64.FORCE_DECAY_POWER s y =? 0)%float = false) ->
  Script64.update_graphics_checked s frame x = Some (Script64.update_graphics s frame x).
Proof.
  intro Hp. unfold Script64.update_graphics_checked, Script64.update_graphics,
    Script64.force_left_particle, Script64.force_right_particle.
  assert (E : forall d dx,
             Engine64.guarded_force_checked d (Script64.FORCE_DECAY_POWER s) dx
             = Some (Engine64.guarded_force d (Script64.FORCE_DECAY_POWER s) dx)).
  { intros d dx.
    exact (guarded_force_checked64_total
             {| Engine64.IS_REPULSIVE := Script64.IS_REPULSIVE s;
                Engine64.FORCE_DECAY_POWER := Script64.FORCE_DECAY_POWER s;
                Engine64.FORCE_POSITION_GAIN := Script64.FORCE_POSITION_GAIN s |}
             Hp d dx). }
  rewrite !E. reflexivity.
Qed.

Section C6.

Local Open Scope float_scope.

(** Two equal finite positions are at separation zero. *)
Lemma equal_positions_zero_separation (a b : float) :
  is_finite a = true -> (a =? b) = true -> (a - b =? 0) = true.
Proof.
  intros Hf He.
  assert (H : Same (a - b) (a - a)).
  { apply Same_sub; [apply Same_refl | apply Same_sym, Same_of_eqb, He]. }
  rewrite (b64_sub_diag _ Hf) in H.
  rewrite (Same_zero _ _ H). reflexivity.
Qed.

(** 64-bit integers are their own two's complement. *)
Lemma wrap_small (z : Z) : (- 2 ^ 63 <= z < 2 ^ 63)%Z -> Int64.wrap z = z.
Proof.
  intro H. unfold Int64.wrap. rewrite Z.mod_small; lia.
Qed.

(** With [FORCE_DECAY_POWER = 1] the integer denominator of a nonzero
    separation is not zero. *)
Lemma integer_denominator_nonzero (dx : Z) :
  (- 2 ^ 63 <= dx < 2 ^ 63)%Z -> dx <> 0%Z -> Int64.denominator dx 1 <> 0%Z.
Proof.
  intros H N. unfold Int64.denominator, Int64.power, Int64.np_abs.
  change (Z.of_nat 1) with 1%Z. rewrite Z.pow_1_r.
  destruct (Z.eq_dec dx (- 2 ^ 63)) as [E | E].
  - subst dx. vm_compute. discriminate.
  - rewrite (wrap_small (Z.abs dx)) by lia. rewrite wrap_small by lia. lia.
Qed.

(** C6, as the code has it, on binary64 numbers, for decay powers
    under which the power of a nonzero base is not zero
    ([FORCE_DECAY_POWER = 1] in all files).  With every division
    checked, the force expression, [Particle.compute_force], the loop of
    the class-based callbacks and the callback of
    [particles_1d_line_segment_03_02.py] return a value on every input,
    infinities and not-a-numbers included: no division is evaluated with
    a zero denominator.  A separation that is [== 0] contributes exactly
    0, and two equal finite positions are at such a separation.  On the
    integer positions of [particles_1d_line_segment_03_02.py], with
    [FORCE_DECAY_POWER = 1], the denominator of a nonzero separation is
    not zero either. *)
Theorem C6_no_division_by_zero
        (s : Engine64.Settings) (w : Engine64.World)
        (s3 : Script64.Settings) (frame : Z) (x : float) :
  (forall y, (y =? 0) = false -> (Engine64.FORCE_DECAY_POWER s y =? 0) = false) ->
  (forall y, (y =? 0) = false -> (Script64.FORCE_DECAY_POWER s3 y =? 0) = false) ->
  let power := Engine64.FORCE_DECAY_POWER s in
  (forall d dx, Engine64.guarded_force_checked d power dx
                = Some (Engine64.guarded_force d power dx))
  /\ (forall d dx, (dx =? 0) = true -> Engine64.guarded_force d power dx = 0)
  /\ (forall d a b, is_finite a = true -> (a =? b) = true ->
                    Engine64.guarded_force d power (a - b) = 0)
  /\ (forall self mate d,
         Engine64.compute_force_checked self mate d power
         = Some (Engine64.compute_force self mate d power))
  /\ Engine64.simulate_checked s w = Some (Engine64.simulate s w)
  /\ Script64.update_graphics_checked s3 frame x
     = Some (Script64.update_graphics s3 frame x)
  /\ (forall dx : Z, (- 2 ^ 63 <= dx < 2 ^ 63)%Z -> dx <> 0%Z ->
                     Int64.denominator dx 1 <> 0%Z).
Proof.
  intros Hp Hp3 power.
  split; [intros d dx; apply guarded_force_checked64_total, Hp |].
  split; [intros d dx; apply force64_zero |].
  split.
  { intros d a b Hf He. apply force64_zero.
    apply equal_positions_zero_separation; assumption. }
  split; [intros self mate d; apply compute_force_checked64_total, Hp |].
  split; [apply simulate_checked64_total, Hp |].
  split; [apply update_graphics_checked64_total, Hp3 |].
  exact integer_denominator_nonzero.
Qed.

(** The settings and the five free particles of
    [particles_1d_line_segment_n_02.py.py], and the first call of the
    callback of [particles_1d_line_segment_03_02.py]. *)
Lemma C6_no_division_by_zero_witness :
  let power := Engine64.FORCE_DECAY_POWER Engine64.file_settings in
  (forall d dx, Engine64.guarded_force_checked d power dx
                = Some (Engine64.guarded_force d power dx))
  /\ (forall d dx, (dx =? 0) = true -> Engine64.guarded_force d power dx = 0)
  /\ (forall d a b, is_finite a = true -> (a =? b) = true ->
                    Engine64.guarded_force d power (a - b) = 0)
  /\ (forall self mate d,
         Engine64.compute_force_checked self mate d power
         = Some (Engine64.compute_force self mate d power))
  /\ Engine64.simulate_checked Engine64.file_settings Engine64.world_n_02
     = Some (Engine64.simulate Engine64.file_settings Engine64.world_n_02)
  /\ Script64.update_graphics_checked Script64.file_settings 0 1
     = Some (Script64.update_graphics Script64.file_settings 0 1)
  /\ (forall dx : Z, (- 2 ^ 63 <= dx < 2 ^ 63)%Z -> dx <> 0%Z ->
                     Int64.denominator dx 1 <> 0%Z).
Proof.
  apply (C6_no_division_by_zero Engine64.file_settings Engine64.world_n_02
           Script64.file_settings 0 1).
  - intros y H. exact H.
  - intros y H. exact H.
Defined.

(** The restriction on the decay power is needed.  On binary64 numbers
    the square of 2^-600 is 0: with [FORCE_DECAY_POWER = 2] the
    separation 2^-600 passes the guard and the division has a zero
    denominator.  With the integer positions of
    [particles_1d_line_segment_03_02.py], at the first call of the
    callback [np.abs(dx)**FORCE_DECAY_POWER] is a 64-bit integer: for a
    free particle at 2 and [FORCE_DECAY_POWER = 64] it wraps around to 0
    at both boundaries, the two forces are the infinities of opposite
    signs and the new position is a not-a-number. *)
Lemma larger_decay_powers_reach_zero :
  (0x1p-600 =? 0) = false
  /\ Engine64.guarded_force_checked 1 (fun x => x * x) 0x1p-600 = None
  /\ Engine64.guarded_force 1 (fun x => x * x) 0x1p-600 = infinity
  /\ (2 - 0 <> 0)%Z
  /\ Int64.denominator (2 - 0) 64 = 0%Z
  /\ Int64.denominator (2 - 6) 64 = 0%Z
  /\ Int64.guarded_force 1 64 (2 - 0) = infinity
  /\ Int64.guarded_force 1 64 (2 - 6) = neg_infinity
  /\ is_nan (Int64.update_graphics_03_02 0 6 1 64 Binary64.one_tenth 2) = true.
Proof.
  repeat split; try (vm_compute; reflexivity). discriminate.
Qed.

(** With [FORCE_DECAY_POWER = 1] the first call of the callback of
    [particles_1d_line_segment_03_02.py], on the integers 0, 6 and 1 of
    the file, gives the position that the callback on binary64 numbers
    gives from 1.0. *)
Lemma first_call_on_integers :
  Int64.update_graphics_03_02 0 6 1 1 Binary64.one_tenth 1 = Binary64.frame_03_02 1.
Proof. vm_compute. reflexivity. Qed.

End C6.

(** ** The run of the three-particle script *)

Section C8.

Local Open Scope float_scope.

Lemma frames_check_spec (count n : nat) (x : float) :
  Binary64.frames_check count n x = true ->
  forall k, (k < count)%nat ->
            Binary64.frame_check (n + k) (Nat.iter k Binary64.frame_03_02 x) = true.
Proof.
  revert n x. induction count as [| count IH]; intros n x H k Hk; [lia |].
  cbn [Binary64.frames_check] in H. apply andb_true_iff in H. destruct H as [H0 H].
  destruct k as [| k].
  - rewrite Nat.add_0_r. exact H0.
  - rewrite Nat.iter_succ_r, Nat.add_succ_r. apply (IH (S n)); [exact H | lia].
Qed.

Lemma first_frames_checked : Binary64.frames_check 1450 0 1 = true.
Proof. vm_compute. reflexivity. Qed.

Lemma trajectory_succ (n : nat) :
  Binary64.trajectory (S n) = Binary64.frame_03_02 (Binary64.trajectory n).
Proof. reflexivity. Qed.

Lemma stalled : Binary64.frame_03_02 Binary64.stall_position = Binary64.stall_position.
Proof. vm_compute. reflexivity. Qed.

Lemma trajectory_reaches_stall :
  Binary64.trajectory Binary64.stall_frame = Binary64.stall_position.
Proof. vm_compute. reflexivity. Qed.

Lemma trajectory_stalled (n : nat) :
  (Binary64.stall_frame <= n)%nat -> Binary64.trajectory n = Binary64.stall_position.
Proof.
  induction 1 as [| n _ IH].
  - exact trajectory_reaches_stall.
  - rewrite trajectory_succ, IH. exact stalled.
Qed.

Lemma implb_true (a b : bool) : implb a b = true -> a = true -> b = true.
Proof. destruct a, b; auto; discriminate. Qed.

(** C8, as the code has it.  In
    [particles_1d_line_segment_03_02.py] (boundaries at 0 and 6,
    repulsive, decay power 1, gain 0.1, free particle starting at 1), on
    binary64 numbers, [x_n] being the position after [n] calls of the
    callback, which is the run of the callback over any [n] frames
    ([run_file_trajectory]): the particle never moves back and stays
    below 3.0, and its displacement never grows; it moves up at every
    one of the first 1450 calls, and for the first 1263 of them the next
    displacement is smaller; from the call 636 on it is within 1e-6 of
    3.0; and from the call 1450 on it rests at 2.9999999999999902, which
    no later call changes. *)
Theorem C8_single_particle_converges (n : nat) :
  let x := Binary64.trajectory n in
  let x' := Binary64.trajectory (S n) in
  let x'' := Binary64.trajectory (S (S n)) in
  (x <=? x') = true
  /\ (x' <? 3) = true
  /\ (x'' - x' <=? x' - x) = true
  /\ ((n < 1450)%nat -> (x <? x') = true)
  /\ ((n < 1263)%nat -> (x'' - x' <? x' - x) = true)
  /\ ((636 <= n)%nat -> (abs (x - 3) <? Binary64.tolerance) = true)
  /\ ((1450 <= n)%nat -> x = Binary64.stall_position).
Proof.
  cbv zeta. destruct (Nat.lt_ge_cases n 1450) as [Hlt | Hge].
  - pose proof (frames_check_spec _ _ _ first_frames_checked n Hlt) as H.
    cbn [Nat.add] in H. fold (Binary64.trajectory n) in H.
    rewrite !trajectory_succ. revert H.
    generalize (Binary64.trajectory n) as x. intros x H.
    unfold Binary64.frame_check in H. cbv zeta in H.
    apply andb_true_iff in H. destruct H as [H H6].
    apply andb_true_iff in H. destruct H as [H H5].
    apply andb_true_iff in H. destruct H as [H H4].
    apply andb_true_iff in H. destruct H as [H H3].
    apply andb_true_iff in H. destruct H as [H1 H2].
    split; [exact H1 |]. split; [exact H2 |]. split; [exact H3 |].
    split; [intro Hn; apply (implb_true _ _ H4), Nat.ltb_lt, Hn |].
    split; [intro Hn; apply (implb_true _ _ H5), Nat.ltb_lt, Hn |].
    split; [intro Hn; apply (implb_true _ _ H6), Nat.leb_le, Hn |].
    intro Hn. lia.
  - rewrite !(trajectory_stalled _ Hge),
      !(trajectory_stalled (S n)), !(trajectory_stalled (S (S n)))
      by (unfold Binary64.stall_frame in *; lia).
    split; [vm_compute; reflexivity |]. split; [vm_compute; reflexivity |].
    split; [vm_compute; reflexivity |].
    split; [intro Hn; lia |]. split; [intro Hn; lia |].
    split; [intros _; vm_compute; reflexivity | intros _; reflexivity].
Qed.

(** C8, as stated, fails on binary64 numbers in the long run.  After
    1450 calls the particle is at 2.9999999999999902, where the step
    [0.1 * (force_left_particle + force_right_particle)] is less than half
    the spacing of the binary64 numbers near 3: the callback returns the
    same position, the particle does not move toward 3 any more, and the
    displacement, 0 at this call and the next, does not decrease.  The
    displacement of the call after the first 1264 is already as large as
    the one before it. *)
Lemma C8_the_particle_stalls :
  let x := Binary64.trajectory 1450 in
  let x' := Binary64.trajectory 1451 in
  let x'' := Binary64.trajectory 1452 in
  x = 0x1.7ffffffffffeap+1
  /\ (x <? 3) = true
  /\ (x <? x') = false
  /\ (abs (x'' - x') <? abs (x' - x)) = false
  /\ (let y := Binary64.trajectory 1263 in
      let y' := Binary64.trajectory 1264 in
      let y'' := Binary64.trajectory 1265 in
      (y <? y') = true /\ (abs (y'' - y') <? abs (y' - y)) = false).
Proof.
  cbv zeta. repeat split; vm_compute; reflexivity.
Qed.

End C8.

(** * Further properties of the scripts *)

(** ** Action and reaction *)


(** ** What a run leaves alone *)

Lemma accumulate_name_color (s : Engine.Settings) (mates : list Engine.Particle)
      (q : Engine.Particle) :
  Engine.name (Engine.accumulate s mates q) = Engine.name q
  /\ Engine.color (Engine.accumulate s mates q) = Engine.color q.
Proof.
  revert q. unfold Engine.accumulate.
  induction mates as [| m mates IH]; intro q; cbn [fold_left]; [split; reflexivity |].
  destruct (IH (Engine.compute_force q m (Engine.direction s) (Engine.FORCE_DECAY_POWER s)))
    as [Hn Hc].
  rewrite Hn, Hc. split; reflexivity.
Qed.

Lemma advance_name_color (s : Engine.Settings) (L R : Engine.Particle)
      (mates : list Engine.Particle) (p : Engine.Particle) :
  Engine.name (Engine.advance s L R mates p) = Engine.name p
  /\ Engine.color (Engine.advance s L R mates p) = Engine.color p.
Proof.
  unfold Engine.advance, Engine.move. cbn [Engine.set_position Engine.name Engine.color].
  destruct (accumulate_name_color s mates
              (Engine.compute_force
                 (Engine.compute_force (Engine.set_total_force p 0) L
                    (Engine.direction s) (Engine.FORCE_DECAY_POWER s))
                 R (Engine.direction s) (Engine.FORCE_DECAY_POWER s))) as [Hn Hc].
  rewrite Hn, Hc. split; reflexivity.
Qed.

Lemma sweep_name_color (s : Engine.Settings) (L R : Engine.Particle)
      (todo front : list Engine.Particle) :
  map Engine.name (Engine.sweep s L R front todo) = map Engine.name todo
  /\ map Engine.color (Engine.sweep s L R front todo) = map Engine.color todo.
Proof.
  revert front. induction todo as [| p rest IH]; intro front;
    cbn [Engine.sweep map]; [split; reflexivity |].
  destruct (advance_name_color s L R (front ++ rest) p) as [Hn Hc].
  destruct (IH (front ++ Engine.advance s L R (front ++ rest) p :: nil)) as [IHn IHc].
  rewrite Hn, Hc, IHn, IHc. split; reflexivity.
Qed.

(** After any sequence of frames the list [particles] holds as many
    particles as before, with the same names and the same colours in the
    same order: the callback changes positions and forces only. *)
Theorem run_keeps_names_and_colours (s : Engine.Settings) (frames : list Z)
        (w : Engine.World) :
  List.length (Engine.particles (Engine.run s frames w))
  = List.length (Engine.particles w)
  /\ map Engine.name (Engine.particles (Engine.run s frames w))
     = map Engine.name (Engine.particles w)
  /\ map Engine.color (Engine.particles (Engine.run s frames w))
     = map Engine.color (Engine.particles w).
Proof.
  rewrite run_ticks. induction (List.length frames) as [| n (IHl & IHn & IHc)].
  - repeat split; reflexivity.
  - rewrite ticks_succ, tick_length, tick_particles.
    destruct (sweep_name_color s (Engine.particle_L (Engine.ticks s n w))
                (Engine.particle_R (Engine.ticks s n w))
                (Engine.particles (Engine.ticks s n w)) nil) as [Hn Hc].
    rewrite Hn, Hc. repeat split; assumption.
Qed.

(** ** The scripts agree with each other *)

Lemma script03a_step_repulsive (s : Script03a.Settings) (frame : Z) (x : Qc) :
  Script03a.IS_REPULSIVE s = 1%nat ->
  Script03a.update_graphics s frame x
  = fst (Script03.update_graphics (script03_of_script03a s) frame x).
Proof.
  intro H. destruct (sign_power_variant_repulsive s x H) as [Hl Hr].
  unfold Script03a.update_graphics, Script03.update_graphics,
    Script03.force_left_particle, Script03.force_right_particle, Script03.direction.
  cbn [fst script03_of_script03a Script03.PARTICLE_LEFT_POSITION
       Script03.PARTICLE_RIGHT_POSITION Script03.FORCE_DECAY_POWER
       Script03.FORCE_POSITION_GAIN Script03.IS_REPULSIVE].
  rewrite Hl, Hr, H. reflexivity.
Qed.

(** With [IS_REPULSIVE = 1], the setting of the file, the callback of
    [particles_1d_line_segment_03_02.py.py] computes over any sequence of
    frames the same positions as the callback of
    [particles_1d_line_segment_03_02.py] in repulsive mode: raising the
    sign to the power 1 and multiplying it by the direction 1 are the
    same. *)
Theorem script03a_repulsive_is_script03
        (s : Script03a.Settings) (frames : list Z) (x : Qc) :
  Script03a.IS_REPULSIVE s = 1%nat ->
  Script03a.run s frames x = Script03.run (script03_of_script03a s) frames x.
Proof.
  intro H. unfold Script03a.run, Script03.run. revert x.
  induction frames as [| frame frames IH]; intro x; [reflexivity |].
  cbn [fold_left]. rewrite (script03a_step_repulsive s frame x H). apply IH.
Qed.

(** The settings of the file, over three frames from the position 1. *)
Lemma script03a_repulsive_is_script03_witness :
  Script03a.run Script03a.file_settings (0 :: 1 :: 2 :: nil)%Z 1
  = Script03.run (script03_of_script03a Script03a.file_settings) (0 :: 1 :: 2 :: nil)%Z 1.
Proof.
  apply (script03a_repulsive_is_script03 Script03a.file_settings). reflexivity.
Defined.

(** ** The two modes *)

Lemma guarded_force_direction_opp (d : Qc) (n : nat) (dx : Qc) :
  guarded_force (- d) n dx = - guarded_force d n dx.
Proof.
  destruct (Qc_eq_dec dx 0) as [E | N].
  - subst dx. rewrite !guarded_force_zero. symmetry. apply Qcopp_zero.
  - rewrite !(guarded_force_nonzero _ n _ N). field.
    apply denominator_nonzero. exact N.
Qed.

Lemma direction_opposite_mode (s : Engine.Settings) :
  Engine.direction (Engine.opposite_mode s) = - Engine.direction s.
Proof.
  unfold Engine.direction, Engine.opposite_mode. cbn [Engine.IS_REPULSIVE].
  destruct (Engine.IS_REPULSIVE s); cbn [negb];
    [reflexivity | symmetry; apply Qcopp_involutive].
Qed.

Lemma contribution_opposite_mode (s : Engine.Settings) (x y : Qc) :
  Engine.contribution (Engine.opposite_mode s) x y = - Engine.contribution s x y.
Proof.
  unfold Engine.contribution. rewrite direction_opposite_mode.
  cbn [Engine.opposite_mode Engine.FORCE_DECAY_POWER].
  apply guarded_force_direction_opp.
Qed.

Lemma net_force_opposite_mode (s : Engine.Settings) (l r x : Qc) (ys : list Qc) :
  Engine.net_force (Engine.opposite_mode s) l r x ys = - Engine.net_force s l r x ys.
Proof.
  unfold Engine.net_force. rewrite !contribution_opposite_mode.
  assert (E : Qcsum (map (Engine.contribution (Engine.opposite_mode s) x) ys)
              = - Qcsum (map (Engine.contribution s x) ys)).
  { induction ys as [| y ys IH]; cbn [map Qcsum fold_right].
    - symmetry. apply Qcopp_zero.
    - fold (Qcsum (map (Engine.contribution (Engine.opposite_mode s) x) ys)).
      fold (Qcsum (map (Engine.contribution s x) ys)).
      rewrite IH, contribution_opposite_mode. ring. }
  rewrite E. ring.
Qed.

Lemma relax_opposite_mode (s : Engine.Settings) (l r : Qc) (todo front : list Qc) :
  Engine.relax (Engine.opposite_mode s) l r front todo = Engine.relax s l r front todo.
Proof.
  revert front. induction todo as [| x rest IH]; intro front;
    cbn [Engine.relax]; [reflexivity |].
  assert (E : Engine.advance_position (Engine.opposite_mode s) l r (front ++ rest) x
              = Engine.advance_position s l r (front ++ rest) x).
  { unfold Engine.advance_position. rewrite net_force_opposite_mode.
    cbn [Engine.opposite_mode Engine.FORCE_POSITION_GAIN]. ring. }
  rewrite E, IH. reflexivity.
Qed.

(** The attractive mode is the repulsive mode run with the opposite gain:
    changing [IS_REPULSIVE] and the sign of [FORCE_POSITION_GAIN] together
    leaves the positions after any number of ticks unchanged, since the
    direction enters the new position only through the product
    [gain * direction]. *)
Theorem mode_and_gain_sign_cancel (s : Engine.Settings) (n : nat) (w : Engine.World) :
  Engine.positions (Engine.ticks (Engine.opposite_mode s) n w)
  = Engine.positions (Engine.ticks s n w).
Proof.
  induction n as [| n IH]; [reflexivity |].
  rewrite !ticks_succ, !tick_positions, IH.
  unfold Engine.position_L, Engine.position_R.
  rewrite !ticks_particle_L, !ticks_particle_R.
  apply relax_opposite_mode.
Qed.

(** ** What the callback draws, and when its subscripts fail *)

Section Drawing.

Local Open Scope float_scope.

Lemma skipn_cons_nth {A} (l : list A) (k : nat) (x : A) :
  nth_error l k = Some x -> skipn k l = x :: skipn (S k) l.
Proof.
  revert k. induction l as [| a l IH]; intros [| k] H; try discriminate H.
  - injection H as ->. reflexivity.
  - cbn [nth_error] in H. cbn [skipn]. rewrite (IH k H). reflexivity.
Qed.

Lemma subscripts_from (poss : list float) (n k : nat) :
  (k <= List.length poss)%nat ->
  Engine64.subscripts poss k n
  = if (k + n <=? List.length poss)%nat then Some (firstn n (skipn k poss)) else None.
Proof.
  revert k. induction n as [| n IH]; intros k Hk; cbn [Engine64.subscripts].
  - rewrite Nat.add_0_r. destruct (Nat.leb_spec k (List.length poss)); [reflexivity | lia].
  - destruct (nth_error poss k) as [x |] eqn:Hx.
    + assert (Hlt : (k < List.length poss)%nat)
        by (apply nth_error_Some; rewrite Hx; discriminate).
      rewrite (IH (S k)) by lia.
      replace (S k + n)%nat with (k + S n)%nat by lia.
      destruct (k + S n <=? List.length poss)%nat; [| reflexivity].
      rewrite (skipn_cons_nth poss k x Hx). reflexivity.
    + apply nth_error_None in Hx.
      destruct (Nat.leb_spec (k + S n) (List.length poss)); [lia | reflexivity].
Qed.

(** [np_particles*0 + PLOT_HEIGHT/2] is 1.0 at a finite position and a
    not-a-number at an infinite one or at a not-a-number. *)
Lemma marker_height (x : float) :
  x * 0 + Engine64.PLOT_HEIGHT / 2 = if is_finite x then 1 else nan.
Proof.
  change (Engine64.PLOT_HEIGHT / 2) with 1.
  destruct (is_finite x) eqn:E.
  - apply is_finite_spec in E. apply Prim2SF_inj. rewrite add_spec, mul_spec, SF_zero.
    destruct E as [[s ->] | (s & m & e & ->)]; reflexivity.
  - apply Prim2SF_inj. rewrite add_spec, mul_spec, SF_zero.
    destruct (Prim2SF x) as [s | s | | s m e] eqn:Ex; try reflexivity;
      exfalso; rewrite (proj2 (is_finite_spec x)) in E; try discriminate E; eauto 6.
Qed.

Lemma sweep64_length (s : Engine64.Settings) (L R : Engine64.Particle)
      (todo front : list Engine64.Particle) :
  List.length (Engine64.sweep s L R front todo) = List.length todo.
Proof.
  revert front. induction todo as [| p rest IH]; intro front; simpl; auto.
Qed.

Lemma update_graphics_drawn_eq (n : nat) (s : Engine64.Settings) (frame : Z)
      (w : Engine64.World) :
  Engine64.update_graphics_drawn n s frame w
  = (Engine64.tick s w,
     if (n <=? List.length (Engine64.particles w))%nat
     then Some {| Engine64.particles_marker :=
                    (Engine64.positions (Engine64.tick s w),
                     map (fun x => if is_finite x then 1 else nan)
                         (Engine64.positions (Engine64.tick s w)));
                  Engine64.text_time_step := (frame + 3)%Z;
                  Engine64.particlet_texts :=
                    map (fun x => {| Engine64.label_x := x; Engine64.label_number := x |})
                        (firstn n (Engine64.positions (Engine64.tick s w))) |}
     else None).
Proof.
  unfold Engine64.update_graphics_drawn, Engine64.tick, Engine64.positions.
  rewrite simulate64_sweep. cbn [fst Engine64.particles Engine64.set_particles].
  set (ps' := Engine64.sweep s _ _ nil (Engine64.particles w)).
  assert (Hlen : List.length (map Engine64.position ps') = List.length (Engine64.particles w))
    by (rewrite length_map; apply sweep64_length).
  unfold Engine64.draw. rewrite subscripts_from by lia.
  cbn [Nat.add skipn]. rewrite Hlen.
  destruct (n <=? List.length (Engine64.particles w))%nat; [| reflexivity].
  do 3 f_equal. f_equal. apply map_ext. intro x. apply marker_height.
Qed.

(** The callbacks of the two class-based scripts move the particles
    first and subscript [poss] afterwards.  The one of
    [particles_1d_line_segment_n_02.py.py] returns its artists exactly when
    the list holds at least 5 free particles, the one of
    [particles_1d_line_segment_04_02.py.py] when it holds at least 2;
    otherwise a subscript fails, and the particles have been moved all
    the same.  When it returns, the marker has the positions of all
    particles after the tick, at the height 1.0 for a finite position and
    at a not-a-number for a position that is not finite, and the texts
    are put at, and show, the positions of the first 5 (2) particles: a
    sixth (third) particle is simulated and drawn but has no text. *)
Theorem callback_subscripts (s : Engine64.Settings) (frame : Z) (w : Engine64.World) :
  let drawn n :=
    {| Engine64.particles_marker :=
         (Engine64.positions (Engine64.tick s w),
          map (fun x => if is_finite x then 1 else nan)
              (Engine64.positions (Engine64.tick s w)));
       Engine64.text_time_step := (frame + 3)%Z;
       Engine64.particlet_texts :=
         map (fun x => {| Engine64.label_x := x; Engine64.label_number := x |})
             (firstn n (Engine64.positions (Engine64.tick s w))) |} in
  Engine64.update_graphics_n_02 s frame w
  = (Engine64.tick s w,
     if (5 <=? List.length (Engine64.particles w))%nat then Some (drawn 5%nat) else None)
  /\ Engine64.update_graphics_04_02 s frame w
     = (Engine64.tick s w,
        if (2 <=? List.length (Engine64.particles w))%nat then Some (drawn 2%nat) else None).
Proof.
  cbv zeta. split; apply update_graphics_drawn_eq.
Qed.

End Drawing.

(** ** Not-a-numbers spread *)

Section NotANumber.

Local Open Scope float_scope.

Lemma nan_add_l a b : is_nan a = true -> is_nan (a + b) = true.
Proof.
  rewrite !is_nan_spec, add_spec. intros ->. destruct (Prim2SF b); reflexivity.
Qed.

Lemma nan_add_r a b : is_nan b = true -> is_nan (a + b) = true.
Proof.
  rewrite !is_nan_spec, add_spec. intros ->. destruct (Prim2SF a); reflexivity.
Qed.

Lemma nan_sub_l a b : is_nan a = true -> is_nan (a - b) = true.
Proof.
  rewrite !is_nan_spec, sub_spec. intros ->. destruct (Prim2SF b); reflexivity.
Qed.

Lemma nan_sub_r a b : is_nan b = true -> is_nan (a - b) = true.
Proof.
  rewrite !is_nan_spec, sub_spec. intros ->. destruct (Prim2SF a); reflexivity.
Qed.

Lemma nan_mul_r a b : is_nan b = true -> is_nan (a * b) = true.
Proof.
  rewrite !is_nan_spec, mul_spec. intros ->. destruct (Prim2SF a); reflexivity.
Qed.

Lemma nan_div_l a b : is_nan a = true -> is_nan (a / b) = true.
Proof.
  rewrite !is_nan_spec, div_spec. intros ->. destruct (Prim2SF b); reflexivity.
Qed.

Lemma nan_eqb_zero a : is_nan a = true -> (a =? 0) = false.
Proof.
  intro H. apply is_nan_spec in H. rewrite eqb_spec, H. reflexivity.
Qed.

Lemma np_sign_nan a : is_nan a = true -> Binary64.np_sign a = a.
Proof.
  intro H. unfold Binary64.np_sign. rewrite (nan_eqb_zero _ H).
  apply is_nan_spec in H. rewrite !ltb_spec, H, SF_zero. reflexivity.
Qed.

(** At a separation that is a not-a-number the force is a
    not-a-number, whatever the direction and the decay power. *)
Lemma force64_nan direction FORCE_DECAY dx :
  is_nan dx = true ->
  is_nan (Engine64.guarded_force direction FORCE_DECAY dx) = true.
Proof.
  intro H. unfold Engine64.guarded_force.
  rewrite (nan_eqb_zero _ H), (np_sign_nan _ H).
  apply nan_div_l, nan_mul_r, H.
Qed.

Variable s : Engine64.Settings.

Let nowhere (p : Engine64.Particle) : bool := is_nan (Engine64.position p).

Lemma compute_force_nan_total (p m : Engine64.Particle) d pw :
  is_nan (Engine64.total_force p) = true ->
  is_nan (Engine64.total_force (Engine64.compute_force p m d pw)) = true.
Proof. apply nan_add_l. Qed.

Lemma compute_force_nan_self (p m : Engine64.Particle) d pw :
  nowhere p = true ->
  is_nan (Engine64.total_force (Engine64.compute_force p m d pw)) = true.
Proof. intro H. apply nan_add_r, force64_nan, nan_sub_l, H. Qed.

Lemma compute_force_nan_mate (p m : Engine64.Particle) d pw :
  nowhere m = true ->
  is_nan (Engine64.total_force (Engine64.compute_force p m d pw)) = true.
Proof. intro H. apply nan_add_r, force64_nan, nan_sub_r, H. Qed.

Lemma accumulate_nan_total (mates : list Engine64.Particle) (q : Engine64.Particle) :
  is_nan (Engine64.total_force q) = true ->
  is_nan (Engine64.total_force (Engine64.accumulate s mates q)) = true.
Proof.
  revert q. unfold Engine64.accumulate.
  induction mates as [| m mates IH]; intros q H; [exact H |].
  apply IH, compute_force_nan_total, H.
Qed.

Lemma accumulate_nan_mate (mates : list Engine64.Particle) (q : Engine64.Particle) :
  existsb nowhere mates = true ->
  is_nan (Engine64.total_force (Engine64.accumulate s mates q)) = true.
Proof.
  revert q. induction mates as [| m mates IH]; intros q H; [discriminate H |].
  cbn [existsb] in H. apply orb_true_iff in H.
  change (Engine64.accumulate s (m :: mates) q)
    with (Engine64.accumulate s mates
            (Engine64.compute_force q m (Engine64.direction s)
               (Engine64.FORCE_DECAY_POWER s))).
  destruct H as [H | H].
  - apply accumulate_nan_total, compute_force_nan_mate, H.
  - apply IH, H.
Qed.

Lemma move_nan (p : Engine64.Particle) (gain : float) :
  is_nan (Engine64.total_force p) = true -> nowhere (Engine64.move p gain) = true.
Proof. intro H. apply nan_add_r, nan_mul_r, H. Qed.

(** One turn of the outer loop moves the particle to a not-a-number
    when it is at one, or when one of the other free particles is. *)
Lemma advance_nan (L R : Engine64.Particle) (mates : list Engine64.Particle)
      (p : Engine64.Particle) :
  nowhere p || existsb nowhere mates = true ->
  nowhere (Engine64.advance s L R mates p) = true.
Proof.
  intro H. unfold Engine64.advance. apply move_nan.
  apply orb_true_iff in H. destruct H as [H | H].
  - apply accumulate_nan_total, compute_force_nan_total, compute_force_nan_self. exact H.
  - apply accumulate_nan_mate, H.
Qed.

Lemma sweep_nan (L R : Engine64.Particle) (todo front : list Engine64.Particle) :
  existsb nowhere (front ++ todo) = true ->
  forallb nowhere (Engine64.sweep s L R front todo) = true.
Proof.
  revert front. induction todo as [| p rest IH]; intros front H;
    cbn [Engine64.sweep forallb]; [reflexivity |].
  assert (Hp : nowhere (Engine64.advance s L R (front ++ rest) p) = true).
  { apply advance_nan. rewrite existsb_app in *. cbn [existsb] in H.
    destruct (nowhere p), (existsb nowhere front), (existsb nowhere rest);
      try reflexivity; discriminate H. }
  rewrite Hp. cbn [andb]. apply IH.
  rewrite !existsb_app. cbn [existsb]. rewrite Hp.
  destruct (existsb nowhere front); reflexivity.
Qed.

Lemma forallb_positions (f : float -> bool) (ps : list Engine64.Particle) :
  forallb f (map Engine64.position ps) = forallb (fun p => f (Engine64.position p)) ps.
Proof.
  induction ps as [| p ps IH]; [reflexivity |]. cbn [map forallb]. now rewrite IH.
Qed.

(** A free particle at a not-a-number takes every free particle with
    it: after the tick all of them are at not-a-numbers, in both modes,
    for every gain and decay power. *)
Theorem not_a_number_spreads (w : Engine64.World) :
  existsb (fun p => is_nan (Engine64.position p)) (Engine64.particles w) = true ->
  forallb is_nan (Engine64.positions (Engine64.tick s w)) = true.
Proof.
  intro H. unfold Engine64.positions. rewrite tick64_particles, forallb_positions.
  apply sweep_nan. exact H.
Qed.

End NotANumber.

(** The first of the two particles of
    [particles_1d_line_segment_04_02.py.py] at a not-a-number. *)
Lemma not_a_number_spreads_witness :
  forallb is_nan
    (Engine64.positions
       (Engine64.tick Engine64.file_settings
          (Engine64.set_particles Engine64.world_04_02
             (Engine64.Particle_init nan "1"%string "ro"%string
              :: Engine64.Particle_init 2 "2"%string "go"%string :: nil)))) = true.
Proof.
  apply (not_a_number_spreads Engine64.file_settings
           (Engine64.set_particles Engine64.world_04_02
              (Engine64.Particle_init nan "1"%string "ro"%string
               :: Engine64.Particle_init 2 "2"%string "go"%string :: nil))).
  reflexivity.
Defined.

(** ** The runs of the scripts as they are written *)

Section FileRuns.

Local Open Scope float_scope.

Lemma outside_tolerance_spec (count : nat) (x : float) :
  Binary64.outside_tolerance count x = true ->
  forall k, (k < count)%nat ->
            (abs (Nat.iter k Binary64.frame_03_02 x - 3) <? Binary64.tolerance) = false.
Proof.
  revert x. induction count as [| count IH]; intros x H k Hk; [lia |].
  cbn [Binary64.outside_tolerance] in H. apply andb_true_iff in H. destruct H as [H0 H].
  destruct k as [| k].
  - apply negb_true_iff in H0. exact H0.
  - rewrite Nat.iter_succ_r. apply (IH _ H). lia.
Qed.

Lemma first_frames_outside_tolerance : Binary64.outside_tolerance 636 1 = true.
Proof. vm_compute. reflexivity. Qed.

(** On binary64 numbers the free particle of
    [particles_1d_line_segment_03_02.py] is within 1e-6 of 3.0 after 636
    calls of the callback and after no fewer; after 300 calls, the number
    of frames the script asks [FuncAnimation] for, it is still more than
    1.7e-3 below 3.0. *)
Theorem tolerance_is_met_at_call_636 :
  (forall n, (n < 636)%nat ->
             (abs (Binary64.trajectory n - 3) <? Binary64.tolerance) = false)
  /\ (abs (Binary64.trajectory 636 - 3) <? Binary64.tolerance) = true
  /\ (Binary64.trajectory 300 <? 3) = true
  /\ (0x1.cp-10 <? 3 - Binary64.trajectory 300) = true.
Proof.
  split.
  - intros n Hn.
    exact (outside_tolerance_spec _ _ first_frames_outside_tolerance n Hn).
  - repeat split; vm_compute; reflexivity.
Qed.

Lemma in_order_during_spec (s : Engine64.Settings) (count : nat) (w : Engine64.World) :
  Engine64.in_order_during s count w = true ->
  forall n, (n <= count)%nat -> Engine64.in_order (Engine64.ticks s n w) = true.
Proof.
  revert w. induction count as [| count IH]; intros w H n Hn.
  - replace n with O by lia. exact H.
  - cbn [Engine64.in_order_during] in H. apply andb_true_iff in H. destruct H as [H0 H].
    destruct n as [| n]; [exact H0 |].
    unfold Engine64.ticks. rewrite Nat.iter_succ_r. apply (IH _ H). lia.
Qed.

(** The runs of the two class-based scripts, from the particles and
    with the settings written in the files, on binary64 numbers: before
    the first call of the callback and after each of the first 1000
    calls (the scripts ask [FuncAnimation] for 300 frames), every free
    particle is at a finite position, and the particles are in the order
    of the list, strictly between the two boundary particles.  No
    particle passes another one or leaves the segment, and no infinity
    or not-a-number arises. *)
Theorem file_runs_stay_in_order (n : nat) :
  (n <= 1000)%nat ->
  Engine64.in_order (Engine64.ticks Engine64.file_settings n Engine64.world_n_02) = true
  /\ Engine64.in_order (Engine64.ticks Engine64.file_settings n Engine64.world_04_02) = true.
Proof.
  intro Hn. split.
  - apply (in_order_during_spec Engine64.file_settings 1000); [vm_compute; reflexivity | exact Hn].
  - apply (in_order_during_spec Engine64.file_settings 1000); [vm_compute; reflexivity | exact Hn].
Qed.

End FileRuns.

(** After 300 calls of the callback. *)
Lemma file_runs_stay_in_order_witness :
  Engine64.in_order (Engine64.ticks Engine64.file_settings 300 Engine64.world_n_02) = true
  /\ Engine64.in_order (Engine64.ticks Engine64.file_settings 300 Engine64.world_04_02)
     = true.
Proof.
  apply (file_runs_stay_in_order 300). lia.
Defined.
